(** * The light-client detector and the HexBytes helper, embedded in Rocq

  Sources embedded here:
  - [libs/bytes/bytes.go]: [HexBytes] and its [ShortString];
  - the detector of package [light]: [detectDivergence],
    [compareNewHeaderWithWitness] and [getTargetBlockOrLatest].

  Go values are modelled as the code has them: a slice is its backing
  array together with a length, [int64] heights are integers, an [error]
  interface value is an [option] of an error, and the effects of a
  comparator (requests to a witness, the timed wait, sends on the result
  channel) are recorded in a chronological log. *)

From Stdlib Require Import ZArith NArith List String Ascii Bool Lia Permutation.
From Stdlib Require Import Init.Byte Strings.Byte.
Import ListNotations.

Set Implicit Arguments.

(* ================================================================== *)
(** * Package [bytes] (libs/bytes/bytes.go)                             *)
(* ================================================================== *)

Module Bytes.

(** A Go slice of bytes.  [array] lists the backing array from the first
    element of the slice onwards, so its length is the capacity of the
    slice; [len] is the length of the slice.  The elements of the slice
    are the first [len] bytes of [array]. *)
Record HexBytes : Type := mkHexBytes {
  array : list byte;
  len : nat
}.

Definition cap (bz : HexBytes) : nat := List.length (array bz).

Definition elements (bz : HexBytes) : list byte := firstn (len bz) (array bz).

(** The invariant of every Go slice: [len(bz) <= cap(bz)]. *)
Definition wf (bz : HexBytes) : Prop := (len bz <= cap bz)%nat.

(** A slice literal, or the result of [make([]byte, n)]: length and
    capacity coincide. *)
Definition of_list (l : list byte) : HexBytes :=
  {| array := l; len := List.length l |}.

(** The slice expression [bz[:high]].  For a slice operand the upper
    bound is checked against the capacity, not against the length; out of
    range the expression panics, which is [None] here. *)
Definition slice_to (bz : HexBytes) (high : nat) : option HexBytes :=
  if (high <=? cap bz)%nat
  then Some {| array := array bz; len := high |}
  else None.

(** [encoding/hex]: [hextable] and [EncodeToString]. *)
Definition hextable : string := "0123456789abcdef".

Definition hexdigit (n : N) : ascii :=
  match String.get (N.to_nat n) hextable with
  | Some ch => ch
  | None => "0"%char
  end.

(** [dst[j] = hextable[v>>4]; dst[j+1] = hextable[v&0x0f]] *)
Definition encodeByte (v : byte) : list ascii :=
  [ hexdigit (N.shiftr (Byte.to_N v) 4); hexdigit (N.land (Byte.to_N v) 15) ].

Definition EncodeToString (src : HexBytes) : string :=
  string_of_list_ascii (flat_map encodeByte (elements src)).

(** [strings.ToUpper] on an all-ASCII string (the only kind that
    [EncodeToString] produces): ['a'..'z'] are moved down by
    ['a' - 'A'], every other byte is kept. *)
Definition upperChar (ch : ascii) : ascii :=
  let n := N_of_ascii ch in
  if ((97 <=? n) && (n <=? 122))%N then ascii_of_N (n - 32) else ch.

Fixpoint ToUpper (s : string) : string :=
  match s with
  | EmptyString => EmptyString
  | String ch rest => String (upperChar ch) (ToUpper rest)
  end.

(** [func (bz HexBytes) String() string] *)
Definition String_ (bz : HexBytes) : string := ToUpper (EncodeToString bz).

(** [func (bz HexBytes) ShortString() string]:
    [strings.ToUpper(hex.EncodeToString(bz[:3]))]; [None] is the run-time
    panic of the slice expression. *)
Definition ShortString (bz : HexBytes) : option string :=
  match slice_to bz 3 with
  | Some short => Some (ToUpper (EncodeToString short))
  | None => None
  end.

(** The claim's words, for comparison with the code: the upper-case
    hexadecimal encoding of a list of bytes, two digits per byte, most
    significant nibble first. *)
Definition upperHexTable : string := "0123456789ABCDEF".

Definition upperHexDigit (n : N) : ascii :=
  match String.get (N.to_nat n) upperHexTable with
  | Some ch => ch
  | None => "0"%char
  end.

Definition UpperHex (bs : list byte) : string :=
  string_of_list_ascii
    (flat_map (fun v => [ upperHexDigit (Byte.to_N v / 16);
                          upperHexDigit (Byte.to_N v mod 16) ]) bs).

End Bytes.

(* ================================================================== *)
(** * Package [light]: the detector                                     *)
(* ================================================================== *)

Module Light.

Local Open Scope Z_scope.

(** ** Blocks and headers *)

(** Modelled from the spec: [types.SignedHeader] and [types.LightBlock]
    are declared outside the sources.  Section 3 of the specification
    gives a light block a height ([int64]), a time, a hash and a summary
    of its validator set; the detector reads [Height], [Time] and
    [Hash()] through the embedded signed header.  A time is an instant,
    counted in nanoseconds. *)
Record SignedHeader : Type := mkSignedHeader {
  Height : Z;
  Time : Z;
  Hash : list byte
}.

Record LightBlock : Type := mkLightBlock {
  Header : SignedHeader;
  ValidatorSet : list byte
}.

(** [t.Before(u)] *)
Definition Before (t u : Z) : bool := t <? u.

(** [bytes.Equal]: same length and same bytes. *)
Fixpoint bytesEqual (a b : list byte) : bool :=
  match a, b with
  | [], [] => true
  | x :: a', y :: b' => Byte.eqb x y && bytesEqual a' b'
  | _, _ => false
  end.

(** ** Providers *)

(** Modelled from the spec: the error values of package [provider]
    (section 4.1): no response, block not found, height too high, a bad
    light block with its reason, or an unclassified transport error. *)
Inductive providerError : Type :=
| ErrNoResponse
| ErrLightBlockNotFound
| ErrHeightTooHigh
| ErrBadLightBlock (Reason : string)
| ErrUnclassified (text : string).

(** Modelled from the spec: the capability [LightBlock(ctx, height)] of a
    remote peer (section 4.1).  A peer may answer differently each time
    it is asked, so the answer depends on how many requests the caller
    has already made to it; height 0 asks for the latest block.  A peer
    answers with a block or with an error, never with both. *)
Definition Provider : Type := nat -> Z -> LightBlock + providerError.

(** ** Errors of package [light] *)

(** Values of the [error] interface seen by the detector: a provider
    error passed on as it is, the two result structs of the comparator,
    the two sentinel errors of the detector, and [errors.New(text)]. *)
Inductive error : Type :=
| ProviderError (e : providerError)
| errConflictingHeaders (Block : LightBlock) (WitnessIndex : nat)
| errBadWitness (Reason : providerError) (WitnessIndex : nat)
| ErrNoWitnesses
| ErrFailedHeaderCrossReferencing
| errorsNew (text : string).

(** ** The client *)

Record Client : Type := mkClient {
  witnesses : list Provider;
  maxClockDrift : Z;
  maxBlockLag : Z
}.

Definition setWitnesses (c : Client) (ws : list Provider) : Client :=
  {| witnesses := ws;
     maxClockDrift := maxClockDrift c;
     maxBlockLag := maxBlockLag c |}.

(** [time.Duration] is an [int64]: arithmetic wraps around. *)
Definition wrap64 (z : Z) : Z := (z + 2 ^ 63) mod 2 ^ 64 - 2 ^ 63.

(** [2*c.maxClockDrift + c.maxBlockLag] *)
Definition waitingPeriod (c : Client) : Z :=
  wrap64 (wrap64 (2 * maxClockDrift c) + maxBlockLag c).

(** ** Effects of one comparator *)

(** What a comparator goroutine does, in order: a request to its witness,
    the timed wait, a send on the result channel; [NilDereference] is the
    run-time panic of reading a field through a nil block. *)
Inductive event : Type :=
| Request (height : Z)
| Sleep (d : Z)
| Send (result : option error)
| NilDereference.

(** A computation that appends to the log; [None] once it has panicked. *)
Definition Task (A : Type) : Type := list event -> option A * list event.

Definition ret {A : Type} (x : A) : Task A := fun log => (Some x, log).

Definition bind {A B : Type} (t : Task A) (k : A -> Task B) : Task B :=
  fun log =>
    match t log with
    | (Some x, log') => k x log'
    | (None, log') => (None, log')
    end.

Declare Scope task_scope.
Delimit Scope task_scope with task.
Notation "x <- t ;; k" := (bind t (fun x => k))
  (at level 61, t at next level, right associativity) : task_scope.
Notation "t ;;; k" := (bind t (fun _ => k))
  (at level 61, right associativity) : task_scope.
Local Open Scope task_scope.

Definition isRequest (e : event) : bool :=
  match e with Request _ => true | _ => false end.

Definition requests (log : list event) : nat :=
  List.length (filter isRequest log).

(** [witness.LightBlock(ctx, height)] *)
Definition LightBlockAt (witness : Provider) (height : Z)
  : Task (LightBlock + providerError) :=
  fun log => (Some (witness (requests log) height), log ++ [Request height]).

(** [time.Sleep(d)] *)
Definition sleep (d : Z) : Task unit := fun log => (Some tt, log ++ [Sleep d]).

(** [errc <- result] *)
Definition send (result : option error) : Task unit :=
  fun log => (Some tt, log ++ [Send result]).

(** Reading a field of [*types.LightBlock]. *)
Definition deref {A : Type} (p : option LightBlock) (k : LightBlock -> Task A)
  : Task A :=
  match p with
  | Some lightBlock => k lightBlock
  | None => fun log => (None, log ++ [NilDereference])
  end.

(** The events of a task started on an empty log. *)
Definition run {A : Type} (t : Task A) : list event := snd (t []).

Definition sent (log : list event) : list (option error) :=
  flat_map (fun e => match e with Send m => [m] | _ => [] end) log.

Definition isPanic (e : event) : bool :=
  match e with NilDereference => true | _ => false end.

(** ** [getTargetBlockOrLatest] *)

Definition getTargetBlockOrLatest (c : Client) (height : Z) (witness : Provider)
  : Task (bool * option LightBlock * option providerError) :=
  r <- LightBlockAt witness 0 ;;
  match r with
  | inr err => ret (false, None, Some err)
  | inl lightBlock =>
      if Height (Header lightBlock) =? height then
        ret (true, Some lightBlock, None)
      else if Height (Header lightBlock) >? height then
        r' <- LightBlockAt witness height ;;
        match r' with
        | inl lightBlock' => ret (true, Some lightBlock', None)
        | inr err => ret (true, None, Some err)
        end
      else
        ret (false, Some lightBlock, None)
  end.

(** ** [compareNewHeaderWithWitness] *)

(** The statements after the [switch] (lines 189-194): reached by every
    branch that leaves the switch with [break]. *)
Definition compareHashes (h : SignedHeader) (lightBlock : LightBlock)
           (witnessIndex : nat) : Task unit :=
  (if negb (bytesEqual (Hash h) (Hash (Header lightBlock)))
   then send (Some (errConflictingHeaders lightBlock witnessIndex))
   else ret tt) ;;;
  send None.

Definition compareNewHeaderWithWitness (c : Client) (h : SignedHeader)
           (witness : Provider) (witnessIndex : nat) : Task unit :=
  r <- LightBlockAt witness (Height h) ;;
  match r with
  | inl lightBlock => compareHashes h lightBlock witnessIndex
  | inr ErrNoResponse => send (Some (ProviderError ErrNoResponse))
  | inr ErrLightBlockNotFound => send (Some (ProviderError ErrLightBlockNotFound))
  | inr ErrHeightTooHigh =>
      res <- getTargetBlockOrLatest c (Height h) witness ;;
      let '(isTargetHeight, lightBlock, err) := res in
      match err with
      | Some err => send (Some (ProviderError err))
      | None =>
          if isTargetHeight then
            deref lightBlock (fun lb => compareHashes h lb witnessIndex)
          else
            deref lightBlock (fun lb =>
              if negb (Before (Time (Header lb)) (Time h)) then
                send (Some (errConflictingHeaders lb witnessIndex))
              else
                sleep (waitingPeriod c) ;;;
                res2 <- getTargetBlockOrLatest c (Height h) witness ;;
                let '(isTargetHeight2, lightBlock2, err2) := res2 in
                match err2 with
                | Some err => send (Some (errBadWitness err witnessIndex))
                | None =>
                    if isTargetHeight2 then
                      deref lightBlock2 (fun lb2 => compareHashes h lb2 witnessIndex)
                    else
                      deref lightBlock2 (fun lb2 =>
                        if negb (Before (Time (Header lb2)) (Time h)) then
                          send (Some (errConflictingHeaders lb2 witnessIndex))
                        else
                          send (Some (ProviderError ErrNoResponse)))
                end)
      end
  | inr err => send (Some (errBadWitness err witnessIndex))
  end.

(** ** [detectDivergence] *)

(** What the detector does, in order: taking and releasing
    [providerMutex], starting the comparator of a witness (with the
    events of that goroutine), receiving one result from [errc], and the
    call of [removeWitnesses]. *)
Inductive action : Type :=
| Lock
| Unlock
| Go (witnessIndex : nat) (activity : list event)
| Receive (result : option error)
| RemoveWitnesses (indexes : list nat).

(** What the caller sees when [detectDivergence] returns: the returned
    error ([None] is [nil]), the client with its registry as the call
    left it, and what the call did. *)
Record outcome : Type := mkOutcome {
  returned : option error;
  after : Client;
  actions : list action
}.

(** A call returns, or waits for ever on [errc], or panics. *)
Inductive result : Type :=
| Returned (o : outcome)
| Blocked
| Panicked.

(** [for i, witness := range c.witnesses { go c.compareNewHeaderWithWitness(...) }]:
    the event log of each comparator, in registry order.  The comparators
    share nothing but the channel, so each log is that of the comparator
    run on its own. *)
Fixpoint launchFrom (c : Client) (h : SignedHeader) (i : nat)
         (ws : list Provider) : list (list event) :=
  match ws with
  | [] => []
  | witness :: rest =>
      run (compareNewHeaderWithWitness c h witness i)
        :: launchFrom c h (S i) rest
  end.

Definition launch (c : Client) (h : SignedHeader) : list (list event) :=
  launchFrom c h 0 (witnesses c).

Fixpoint goActions (i : nat) (logs : list (list event)) : list action :=
  match logs with
  | [] => []
  | log :: rest => Go i log :: goActions (S i) rest
  end.

Fixpoint replaceNth {A : Type} (i : nat) (x : A) (l : list A) : list A :=
  match l, i with
  | [], _ => []
  | _ :: t, O => x :: t
  | y :: t, S j => y :: replaceNth j x t
  end.

(** The channel [errc] as a queue.  Each comparator sends its results in
    its own order; [arrival] names, step by step, the comparator whose
    next pending result enters the channel (a step naming a comparator
    with nothing pending is skipped).  The result is the order in which
    the results can be received. *)
Fixpoint deliver (arrival : list nat) (pending : list (list (option error)))
  : list (option error) :=
  match arrival with
  | [] => []
  | i :: rest =>
      match nth_error pending i with
      | Some (m :: q) => m :: deliver rest (replaceNth i q pending)
      | _ => deliver rest pending
      end
  end.

(** One turn of the [switch e := err.(type)] of the fan-in loop, on the
    pair ([headerMatched], [witnessesToRemove]).  [None] is the panic of
    [c.witnesses[e.WitnessIndex]] out of range. *)
Definition handleResult (ws : list Provider) (st : bool * list nat)
           (err : option error) : option (bool * list nat) :=
  let '(headerMatched, witnessesToRemove) := st in
  match err with
  | None => Some (true, witnessesToRemove)
  | Some (errConflictingHeaders _ WitnessIndex) =>
      Some (headerMatched, witnessesToRemove ++ [WitnessIndex])
  | Some (errBadWitness Reason WitnessIndex) =>
      match nth_error ws WitnessIndex with
      | None => None
      | Some _ =>
          match Reason with
          | ErrBadLightBlock _ =>
              Some (headerMatched, witnessesToRemove ++ [WitnessIndex])
          | _ => Some (headerMatched, witnessesToRemove)
          end
      end
  | Some _ => Some (headerMatched, witnessesToRemove)
  end.

(** [for i := 0; i < cap(errc); i++ { err := <-errc; switch ... }] over the
    results received. *)
Fixpoint fanIn (ws : list Provider) (st : bool * list nat)
         (results : list (option error)) : option (bool * list nat) :=
  match results with
  | [] => Some st
  | err :: rest =>
      match handleResult ws st err with
      | Some st' => fanIn ws st' rest
      | None => None
      end
  end.

(** The results that the fan-in loop receives: the first [cap(errc)] to
    arrive. *)
Definition received (c : Client) (h : SignedHeader) (arrival : list nat)
  : list (option error) :=
  firstn (List.length (witnesses c))
         (deliver arrival (map sent (launch c h))).

Section Detector.

(** [c.removeWitnesses(indexes)] is not among the sources; it is taken
    as a parameter: from the batch of indexes and the registry, the
    error it returns ([None] is [nil]) and the registry it leaves. *)
Variable removeWitnesses :
  list nat -> list Provider -> option error * list Provider.

(** Lines 88-100: removal of the queued witnesses, then the decision. *)
Definition decide (c : Client) (done : list action)
           (headerMatched : bool) (witnessesToRemove : list nat) : result :=
  let done := done ++ [RemoveWitnesses witnessesToRemove] in
  match removeWitnesses witnessesToRemove (witnesses c) with
  | (Some err, ws') =>
      Returned {| returned := Some err;
                  after := setWitnesses c ws';
                  actions := done ++ [Unlock] |}
  | (None, ws') =>
      if headerMatched then
        Returned {| returned := None;
                    after := setWitnesses c ws';
                    actions := done ++ [Unlock] |}
      else
        Returned {| returned := Some ErrFailedHeaderCrossReferencing;
                    after := setWitnesses c ws';
                    actions := done ++ [Unlock] |}
  end.

Definition detectDivergence (c : Client) (primaryTrace : list LightBlock)
           (now : Z) (arrival : list nat) : result :=
  if (List.length primaryTrace <? 2)%nat then
    Returned {| returned := Some (errorsNew "nil or single block primary trace");
                after := c;
                actions := [] |}
  else
    match nth_error primaryTrace (List.length primaryTrace - 1) with
    | None => Panicked
    | Some lastBlock =>
        let lastVerifiedHeader := Header lastBlock in
        if (List.length (witnesses c) =? 0)%nat then
          Returned {| returned := Some ErrNoWitnesses;
                      after := c;
                      actions := [Lock; Unlock] |}
        else
          let logs := launch c lastVerifiedHeader in
          let errc := deliver arrival (map sent logs) in
          if existsb (existsb isPanic) logs then Panicked
          else if (List.length errc <? List.length (witnesses c))%nat then Blocked
          else
            let results := received c lastVerifiedHeader arrival in
            match fanIn (witnesses c) (false, []) results with
            | None => Panicked
            | Some (headerMatched, witnessesToRemove) =>
                decide c (Lock :: goActions 0 logs ++ map Receive results)
                       headerMatched witnessesToRemove
            end
    end.

End Detector.

(** ** Registries *)

Fixpoint keepFrom (i : nat) (indexes : list nat) (ws : list Provider)
  : list Provider :=
  match ws with
  | [] => []
  | w :: rest =>
      if existsb (Nat.eqb i) indexes
      then keepFrom (S i) indexes rest
      else w :: keepFrom (S i) indexes rest
  end.

(** Modelled from the spec: [removeWitnesses], whose body is not among
    the sources.  Section 4.4, step 5: all queued indexes are removed as
    one batch, the indexes referring to positions before the removal
    (mark and compact); removing an index twice is harmless. *)
Definition compactWitnesses (indexes : list nat) (ws : list Provider)
  : option error * list Provider :=
  (None, keepFrom 0 indexes ws).

End Light.

(* ================================================================== *)
(** * Words of the specification                                        *)
(* ================================================================== *)

Module Vocabulary.
Import Light.

(** A result that reports a match: [nil]. *)
Definition isMatch (m : option error) : bool :=
  match m with None => true | Some _ => false end.

(** The registry positions that one received result puts on the removal
    queue: the index of a conflicting-headers result, the index of a
    bad-witness result whose reason is an invalid light block, and
    nothing otherwise. *)
Definition queuedBy (m : option error) : list nat :=
  match m with
  | Some (errConflictingHeaders _ i) => [i]
  | Some (errBadWitness (ErrBadLightBlock _) i) => [i]
  | _ => []
  end.

(** The invalid-light-block classification of a provider error. *)
Definition isBadLightBlock (e : providerError) : bool :=
  match e with ErrBadLightBlock _ => true | _ => false end.

(** A result that names a witness names this one. *)
Definition about (i : nat) (m : option error) : Prop :=
  match m with
  | Some (errConflictingHeaders _ j) => j = i
  | Some (errBadWitness _ j) => j = i
  | _ => True
  end.

(** A result that names a witness names a registered one. *)
Definition registered (ws : list Provider) (m : option error) : Prop :=
  match m with
  | Some (errConflictingHeaders _ j) => (j < List.length ws)%nat
  | Some (errBadWitness _ j) => (j < List.length ws)%nat
  | _ => True
  end.

(** A duration that fits [int64]. *)
Definition int64 (z : Z) : Prop := (- 2 ^ 63 <= z < 2 ^ 63)%Z.

End Vocabulary.

(* ================================================================== *)
(** * Concrete inputs                                                   *)
(* ================================================================== *)

Module Examples.
Import Light.
Local Open Scope Z_scope.

(** A slice of length 2 cut out of a four-byte array:
    [HexBytes{0xAB, 0xCD, 0xEF, 0x01}[:2]]. *)
Definition prefix2 : Bytes.HexBytes :=
  {| Bytes.array := [xab; xcd; xef; x01]; Bytes.len := 2 |}.

Definition four : Bytes.HexBytes := Bytes.of_list [xab; xcd; xef; x01].

Definition two : Bytes.HexBytes := Bytes.of_list [xab; xcd].

(** The primary's header at height 5 and the trace that ends in it. *)
Definition h5 : SignedHeader := {| Height := 5; Time := 100; Hash := [x01] |}.

Definition anchor : LightBlock :=
  {| Header := {| Height := 1; Time := 10; Hash := [x00] |}; ValidatorSet := [] |}.

Definition target : LightBlock := {| Header := h5; ValidatorSet := [] |}.

Definition trace : list LightBlock := [anchor; target].

(** A block at height 5 with another hash. *)
Definition forged : LightBlock :=
  {| Header := {| Height := 5; Time := 100; Hash := [x02] |}; ValidatorSet := [] |}.

(** Blocks below height 5: one older than the primary's header, one not. *)
Definition early3 : LightBlock :=
  {| Header := {| Height := 3; Time := 60; Hash := [x03] |}; ValidatorSet := [] |}.

Definition early4 : LightBlock :=
  {| Header := {| Height := 4; Time := 80; Hash := [x04] |}; ValidatorSet := [] |}.

Definition late3 : LightBlock :=
  {| Header := {| Height := 3; Time := 100; Hash := [x03] |}; ValidatorSet := [] |}.

Definition ahead7 : LightBlock :=
  {| Header := {| Height := 7; Time := 140; Hash := [x07] |}; ValidatorSet := [] |}.

(** Witnesses. *)
Definition honest : Provider := fun _ _ => inl target.

Definition liar : Provider := fun _ _ => inl forged.

Definition silent : Provider := fun _ _ => inr ErrNoResponse.

(** Behind the primary at first, with a latest block that is not older
    than the primary's header. *)
Definition skewed : Provider :=
  fun _ height => if height =? 0 then inl late3 else inr ErrHeightTooHigh.

(** Behind the primary, before and after the wait. *)
Definition lagging : Provider :=
  fun n height =>
    if height =? 0 then (if (n <=? 1)%nat then inl early3 else inl early4)
    else inr ErrHeightTooHigh.

(** Already past the target height when asked for its latest block. *)
Definition advanced : Provider :=
  fun n height =>
    match n with
    | O => inr ErrHeightTooHigh
    | _ => if height =? 0 then inl ahead7 else inl target
    end.

(** Behind the primary; its latest block cannot be had at the first
    reconciliation attempt because the block is invalid. *)
Definition brokenFirst : Provider :=
  fun n height =>
    match n with
    | O => inr ErrHeightTooHigh
    | _ => inr (ErrBadLightBlock "bad signature")
    end.

(** Behind the primary; the same failure at the second attempt. *)
Definition brokenSecond : Provider :=
  fun n height =>
    match n with
    | O => inr ErrHeightTooHigh
    | S O => inl early3
    | _ => inr (ErrBadLightBlock "bad signature")
    end.

Definition client (ws : list Provider) : Client :=
  {| witnesses := ws; maxClockDrift := 10; maxBlockLag := 5 |}.

End Examples.

(* ================================================================== *)
(** * Package [bytes]: JSON encoding and reversal                       *)
(* ================================================================== *)

Module BytesOps.
Import Bytes.

(** The errors of [UnmarshalJSON]: its own invalid-hex-string error,
    built by [fmt.Errorf] from [data], and the two errors of
    [hex.DecodeString]. *)
Inductive error : Type :=
| ErrInvalidHexString (data : list byte)
| InvalidByteError (b : byte)
| ErrLength.

(** [make([]byte, n)] *)
Definition make (n : nat) : list byte := repeat x00 n.

(** [s[i] = v]; [None] is the panic of an index out of range. *)
Fixpoint store (i : nat) (v : byte) (s : list byte) : option (list byte) :=
  match s, i with
  | [], _ => None
  | _ :: t, O => Some (v :: t)
  | x :: t, S j =>
      match store j v t with
      | Some t' => Some (x :: t')
      | None => None
      end
  end.

(** [copy(dst, src)]: the first [min(len(dst), len(src))] elements of
    [dst] are overwritten; the result is [dst] afterwards. *)
Fixpoint copy (dst src : list byte) : list byte :=
  match dst, src with
  | _ :: dst', x :: src' => x :: copy dst' src'
  | _, _ => dst
  end.

(** The double-quote character, byte 0x22. *)
Definition quote : byte := x22.

(** [func (bz HexBytes) MarshalJSON() ([]byte, error)]; the outer [None]
    is a run-time panic of one of the two indexed stores. *)
Definition MarshalJSON (bz : HexBytes) : option (list byte * option error) :=
  let s := list_byte_of_string (ToUpper (EncodeToString bz)) in
  let jbz := make (List.length s + 2) in
  match store 0 quote jbz with
  | None => None
  | Some jbz1 =>
      let jbz2 := firstn 1 jbz1 ++ copy (skipn 1 jbz1) s in
      match store (List.length jbz2 - 1) quote jbz2 with
      | None => None
      | Some jbz3 => Some (jbz3, None)
      end
  end.

(** [encoding/hex]: the value of one hexadecimal digit, in either case. *)
Definition fromHexChar (ch : byte) : option N :=
  let n := Byte.to_N ch in
  if ((48 <=? n) && (n <=? 57))%N then Some (n - 48)%N
  else if ((97 <=? n) && (n <=? 102))%N then Some (n - 97 + 10)%N
  else if ((65 <=? n) && (n <=? 70))%N then Some (n - 65 + 10)%N
  else None.

(** [(a << 4) | b] as a byte. *)
Definition joinNibbles (a b : N) : byte :=
  match Byte.of_N (N.lor (N.shiftl a 4) b) with
  | Some v => v
  | None => x00
  end.

(** [hex.DecodeString]: the bytes decoded so far and the error.  Digits
    are read two at a time; the first bad digit stops the decoding, and an
    odd digit left over at the end is checked before the length error is
    reported. *)
Fixpoint DecodeString (src : list byte) : list byte * option error :=
  match src with
  | [] => ([], None)
  | [p] =>
      match fromHexChar p with
      | None => ([], Some (InvalidByteError p))
      | Some _ => ([], Some ErrLength)
      end
  | p :: q :: rest =>
      match fromHexChar p with
      | None => ([], Some (InvalidByteError p))
      | Some a =>
          match fromHexChar q with
          | None => ([], Some (InvalidByteError q))
          | Some b =>
              let '(out, err) := DecodeString rest in
              (joinNibbles a b :: out, err)
          end
      end
  end.

(** [func (bz *HexBytes) UnmarshalJSON(data []byte) error].  [old] holds
    the elements of [*bz] before the call; the result is the error and
    the elements of [*bz] after it.  (The capacity of the new slice is
    the allocator's choice and is not modelled.) *)
Definition UnmarshalJSON (old : list byte) (data : list byte)
  : option error * list byte :=
  if (List.length data <? 2)%nat
     || negb (Byte.eqb (nth 0 data x00) quote)
     || negb (Byte.eqb (nth (List.length data - 1) data x00) quote)
  then (Some (ErrInvalidHexString data), old)
  else
    let '(bz2, err) :=
      DecodeString (firstn (List.length data - 1 - 1) (skipn 1 data)) in
    match err with
    | Some e => (Some e, old)
    | None => (None, bz2)
    end.

(** The loop of [ReversedBytes]:
    [for i, j := 0, len(s)-1; i < j; i, j = i+1, j-1 { s[i], s[j] = s[j], s[i] }].
    [None] is a panic of an index out of range, or the fuel running out. *)
Fixpoint reverseLoop (fuel : nat) (i j : Z) (s : list byte)
  : option (list byte) :=
  if (i <? j)%Z then
    match fuel with
    | O => None
    | S fuel' =>
        if (i <? 0)%Z then None
        else
          match nth_error s (Z.to_nat i), nth_error s (Z.to_nat j) with
          | Some si, Some sj =>
              match store (Z.to_nat i) sj s with
              | Some s1 =>
                  match store (Z.to_nat j) si s1 with
                  | Some s2 => reverseLoop fuel' (i + 1) (j - 1) s2
                  | None => None
                  end
              | None => None
              end
          | _, _ => None
          end
    end
  else Some s.

(** [func (bz HexBytes) ReversedBytes() HexBytes]: a fresh slice of
    length and capacity [len(bz)], filled from [bz] and reversed in
    place. *)
Definition ReversedBytes (bz : HexBytes) : option HexBytes :=
  let s := copy (make (len bz)) (elements bz) in
  match reverseLoop (List.length s) 0 (Z.of_nat (List.length s) - 1) s with
  | Some s' => Some (of_list s')
  | None => None
  end.

End BytesOps.

(* ================================================================== *)
(** * Package [mockcoreserver]: [unmarshalCmd]                          *)
(* ================================================================== *)

Module MockCoreServer.

Section UnmarshalCmd.

(** [json.RawMessage], the variable a field pointer points to, and the
    errors of [json.Unmarshal], which is taken as a parameter: from the
    raw parameter and the variable, the error and the variable
    afterwards. *)
Variables RawMessage Target Err : Type.
Variable jsonUnmarshal : RawMessage -> Target -> option Err * Target.

(** The loop [for i, field := range fields], with its
    [json.Unmarshal(req.Params[i], field)] and early return, from index
    [i] on.  The result is the returned error with the
    variables behind [fields] as the call leaves them; [None] is the panic
    of [req.Params[i]] out of range. *)
Fixpoint unmarshalFrom (i : nat) (Params : list RawMessage)
         (fields : list Target) : option (option Err * list Target) :=
  match fields with
  | [] => Some (None, [])
  | field :: rest =>
      match nth_error Params i with
      | None => None
      | Some raw =>
          match jsonUnmarshal raw field with
          | (Some err, field') => Some (Some err, field' :: rest)
          | (None, field') =>
              match unmarshalFrom (S i) Params rest with
              | Some (err, rest') => Some (err, field' :: rest')
              | None => None
              end
          end
      end
  end.

(** [func unmarshalCmd(req btcjson.Request, fields ...interface{}) error] *)
Definition unmarshalCmd (Params : list RawMessage) (fields : list Target)
  : option (option Err * list Target) :=
  unmarshalFrom 0 Params fields.

End UnmarshalCmd.

(** A decoder for small tests: a raw parameter is a number or garbage,
    the variable holds a number. *)
Definition decodeNat (raw : option nat) (old : nat) : option string * nat :=
  match raw with
  | Some n => (None, n)
  | None => (Some "invalid character"%string, old)
  end.

End MockCoreServer.

(* ================================================================== *)
(** * Measures of a comparator's log                                    *)
(* ================================================================== *)

Module Measures.
Import Light.

Definition isSleep (e : event) : bool :=
  match e with Sleep _ => true | _ => false end.

(** The number of timed waits in a log. *)
Definition sleeps (log : list event) : nat :=
  List.length (filter isSleep log).

(** The heights asked for, in order. *)
Definition heightsAsked (log : list event) : list Z :=
  flat_map (fun e => match e with Request height => [height] | _ => [] end) log.

(** In the run with this log the witness has answered a request with
    this block: the request number [n] of the log (counting from 0) asks
    for [height], and the witness answers its request number [n], for
    [height], with the block. *)
Definition answeredDuring (witness : Provider) (log : list event)
           (lightBlock : LightBlock) : Prop :=
  exists n height,
    nth_error (heightsAsked log) n = Some height
    /\ witness n height = inl lightBlock.

(** The first result that comparator [i] has pending, as a list: empty
    when there is no such comparator or it has nothing pending. *)
Definition firstResult (pending : list (list (option error))) (i : nat)
  : list (option error) :=
  match nth_error pending i with
  | Some (m :: _) => [m]
  | _ => []
  end.

End Measures.

(* ================================================================== *)
(** * Facts about [HexBytes]                                            *)
(* ================================================================== *)

Module BytesFacts.
Import Bytes.

(** Upper-casing the two lower-case digits of a byte gives its two
    upper-case digits. *)
Lemma upper_encodeByte (v : byte) :
  map upperChar (encodeByte v)
  = [ upperHexDigit (Byte.to_N v / 16); upperHexDigit (Byte.to_N v mod 16) ].
Proof. destruct v; reflexivity. Qed.

Lemma ToUpper_string_of_list (l : list ascii) :
  ToUpper (string_of_list_ascii l) = string_of_list_ascii (map upperChar l).
Proof.
  induction l as [|ch l IH]; simpl; [reflexivity|].
  now rewrite IH.
Qed.

Lemma map_flat_map {A B C : Type} (f : B -> C) (g : A -> list B) (l : list A) :
  map f (flat_map g l) = flat_map (fun x => map f (g x)) l.
Proof.
  induction l as [|x l IH]; simpl; [reflexivity|].
  now rewrite map_app, IH.
Qed.

(** [String()] of a slice is the upper-case hexadecimal encoding of its
    elements. *)
Lemma String_UpperHex (bz : HexBytes) :
  String_ bz = UpperHex (elements bz).
Proof.
  unfold String_, EncodeToString, UpperHex.
  rewrite ToUpper_string_of_list, map_flat_map.
  f_equal.
  apply flat_map_ext. intros v. apply upper_encodeByte.
Qed.

Lemma slice_to_Some (bz : HexBytes) (high : nat) :
  (high <= cap bz)%nat ->
  slice_to bz high = Some {| array := array bz; len := high |}.
Proof.
  intros Hle. unfold slice_to.
  now apply Nat.leb_le in Hle as ->.
Qed.

Lemma slice_to_None (bz : HexBytes) (high : nat) :
  (cap bz < high)%nat -> slice_to bz high = None.
Proof.
  intros Hlt. unfold slice_to.
  now apply Nat.leb_gt in Hlt as ->.
Qed.

(** The slice [bz[:3]] of a slice that holds at least three elements
    holds its first three elements. *)
Lemma first_three (bz : HexBytes) :
  (3 <= len bz)%nat -> firstn 3 (array bz) = firstn 3 (elements bz).
Proof.
  intros Hlen. unfold elements.
  rewrite firstn_firstn. f_equal. lia.
Qed.

(** C10, as the code has it.  [ShortString] returns exactly when the
    capacity of the slice is at least 3, and then returns the upper-case
    hexadecimal encoding of the first three bytes of the backing array;
    for a slice of length at least 3 these are its own first three
    elements.  It panics exactly when the capacity is below 3. *)
Theorem ShortString_by_capacity (bz : HexBytes) (Hwf : wf bz) :
  ((3 <= cap bz)%nat ->
     ShortString bz = Some (UpperHex (firstn 3 (array bz))))
  /\ ((3 <= len bz)%nat ->
     ShortString bz = Some (UpperHex (firstn 3 (elements bz))))
  /\ ((cap bz < 3)%nat -> ShortString bz = None /\ (len bz < 3)%nat).
Proof.
  assert (Hcap : (3 <= cap bz)%nat ->
                 ShortString bz = Some (UpperHex (firstn 3 (array bz)))).
  { intros H3. unfold ShortString.
    rewrite (slice_to_Some bz H3).
    f_equal. apply (String_UpperHex {| array := array bz; len := 3 |}). }
  split; [exact Hcap|]. split.
  - intros Hlen. unfold wf in Hwf.
    rewrite <- (first_three bz Hlen). apply Hcap. lia.
  - intros Hlt. unfold wf in Hwf. split; [|lia].
    unfold ShortString. now rewrite (slice_to_None bz Hlt).
Qed.

Lemma ShortString_by_capacity_witness :
  wf Examples.four
  /\ ShortString Examples.four = Some "ABCDEF"%string
  /\ wf Examples.two
  /\ ShortString Examples.two = None.
Proof.
  assert (Hfour : wf Examples.four) by (unfold wf; cbv; lia).
  assert (Htwo : wf Examples.two) by (unfold wf; cbv; lia).
  split; [exact Hfour|]. split.
  - destruct (ShortString_by_capacity Hfour) as [_ [Hlen _]].
    rewrite Hlen by (cbv; lia). reflexivity.
  - split; [exact Htwo|].
    destruct (ShortString_by_capacity Htwo) as [_ [_ Hcap]].
    apply Hcap. cbv. lia.
Defined.

(** C10 as stated fails: a slice of length 2 whose backing array holds
    four bytes has length below 3, and [bz[:3]] is in range for it:
    [ShortString] returns the encoding of three bytes of the array. *)
Lemma ShortString_short_slice_in_range :
  wf Examples.prefix2
  /\ (len Examples.prefix2 < 3)%nat
  /\ ShortString Examples.prefix2 = Some "ABCDEF"%string
  /\ ShortString Examples.prefix2 <> None.
Proof.
  split; [unfold wf; cbv; lia|].
  split; [cbv; lia|].
  split; [reflexivity|discriminate].
Qed.

End BytesFacts.

(* ================================================================== *)
(** * Facts about the comparator                                        *)
(* ================================================================== *)

Module ComparatorFacts.
Import Light Vocabulary.
Local Open Scope Z_scope.

Ltac unfold_task :=
  unfold run, compareNewHeaderWithWitness, compareHashes,
    getTargetBlockOrLatest, bind, LightBlockAt, send, sleep, deref, ret.

(** Start a comparator on the empty log. *)
Ltac run_task := unfold_task; unfold requests; simpl.

(** Decide one integer or time comparison of the goal from the context. *)
Ltac compare_heights :=
  match goal with
  | |- context [Z.eqb ?a ?b] => destruct (Z.eqb_spec a b); try lia
  | |- context [Z.gtb ?a ?b] =>
      rewrite (Z.gtb_ltb a b); destruct (Z.ltb_spec b a); try lia
  | |- context [Before ?a ?b] =>
      unfold Before; destruct (Z.ltb_spec a b); try lia
  | |- context [Z.ltb ?a ?b] => destruct (Z.ltb_spec a b); try lia
  end.

Lemma bytesEqual_eq (a b : list byte) : bytesEqual a b = true <-> a = b.
Proof.
  revert b; induction a as [|x a IH]; intros [|y b]; simpl;
    try (split; [discriminate|discriminate]); [tauto|].
  rewrite andb_true_iff, IH. split.
  - intros [Hxy ->]. now rewrite (Byte.byte_dec_bl _ _ Hxy).
  - intros [= -> ->]. split; [now apply Byte.byte_dec_lb|reflexivity].
Qed.

Lemma requests_app (log : list event) (height : Z) :
  requests (log ++ [Request height]) = S (requests log).
Proof.
  unfold requests. rewrite filter_app, length_app. simpl. lia.
Qed.

Lemma sent_app (l1 l2 : list event) : sent (l1 ++ l2) = sent l1 ++ sent l2.
Proof. unfold sent. apply flat_map_app. Qed.

(** In range, the [int64] arithmetic of the waiting period is exact. *)
Lemma wrap64_exact (z : Z) : int64 z -> wrap64 z = z.
Proof.
  unfold int64, wrap64. intros Hz.
  rewrite Z.mod_small; lia.
Qed.

Lemma waitingPeriod_exact (c : Client) :
  int64 (2 * maxClockDrift c) ->
  int64 (2 * maxClockDrift c + maxBlockLag c) ->
  waitingPeriod c = 2 * maxClockDrift c + maxBlockLag c.
Proof.
  intros H2 Hsum. unfold waitingPeriod.
  now rewrite (wrap64_exact H2), (wrap64_exact Hsum).
Qed.

(** C6.  [getTargetBlockOrLatest] first asks the witness for its latest
    block (height 0).  An error of that request is returned with no
    block and no further request.  A latest block at the target height
    is returned with [true]; one above the target height is followed by
    exactly one more request, at the target height, whose answer is
    returned with [true]; one below is returned with [false]. *)
Theorem getTargetBlockOrLatest_cases
        (c : Client) (height : Z) (witness : Provider) (log : list event) :
  let n := requests log in
  (forall err, witness n 0 = inr err ->
     getTargetBlockOrLatest c height witness log
     = (Some (false, None, Some err), log ++ [Request 0]))
  /\ (forall latest, witness n 0 = inl latest ->
        Height (Header latest) = height ->
        getTargetBlockOrLatest c height witness log
        = (Some (true, Some latest, None), log ++ [Request 0]))
  /\ (forall latest, witness n 0 = inl latest ->
        Height (Header latest) > height ->
        getTargetBlockOrLatest c height witness log
        = (Some (true,
                 match witness (S n) height with
                 | inl lightBlock => Some lightBlock
                 | inr _ => None
                 end,
                 match witness (S n) height with
                 | inl _ => None
                 | inr err => Some err
                 end),
           (log ++ [Request 0]) ++ [Request height]))
  /\ (forall latest, witness n 0 = inl latest ->
        Height (Header latest) < height ->
        getTargetBlockOrLatest c height witness log
        = (Some (false, Some latest, None), log ++ [Request 0])).
Proof.
  intros n. subst n. repeat split.
  - intros err Herr. unfold_task. now rewrite Herr.
  - intros latest Hl Heq. unfold_task. rewrite Hl.
    compare_heights. reflexivity.
  - intros latest Hl Hgt. unfold_task. rewrite Hl.
    compare_heights. compare_heights.
    rewrite requests_app.
    now destruct (witness (S (requests log)) height).
  - intros latest Hl Hlt. unfold_task. rewrite Hl.
    compare_heights. compare_heights. reflexivity.
Qed.

Lemma getTargetBlockOrLatest_cases_witness :
  getTargetBlockOrLatest (Examples.client []) 5 Examples.advanced
                         [Request 5]
  = (Some (true, Some Examples.target, None), [Request 5; Request 0; Request 5])
  /\ getTargetBlockOrLatest (Examples.client []) 5 Examples.lagging []
     = (Some (false, Some Examples.early3, None), [Request 0])
  /\ getTargetBlockOrLatest (Examples.client []) 5 Examples.silent []
     = (Some (false, None, Some ErrNoResponse), [Request 0]).
Proof.
  split; [|split].
  - apply (getTargetBlockOrLatest_cases (Examples.client []) 5
             Examples.advanced [Request 5]
           : _ /\ _ /\ _ /\ _) with (latest := Examples.ahead7);
      [reflexivity | simpl; lia].
  - apply (getTargetBlockOrLatest_cases (Examples.client []) 5
             Examples.lagging []); [reflexivity | simpl; lia].
  - apply (getTargetBlockOrLatest_cases (Examples.client []) 5
             Examples.silent []). reflexivity.
Defined.

(** C4.  The witness is behind the primary (its answer at the target
    height is height-too-high and its latest block is strictly below the
    target height) and the time of that latest block is not earlier than
    the primary's.  The comparator then makes two requests and sends one
    conflicting-headers result carrying the latest block: it does not
    sleep. *)
Theorem behind_with_late_time_conflicts_at_once
        (c : Client) (h : SignedHeader) (witness : Provider)
        (witnessIndex : nat) (latest : LightBlock)
        (Htoo : witness O (Height h) = inr ErrHeightTooHigh)
        (Hlatest : witness 1%nat 0 = inl latest)
        (Hbelow : Height (Header latest) < Height h)
        (Htime : Time h <= Time (Header latest)) :
  run (compareNewHeaderWithWitness c h witness witnessIndex)
  = [Request (Height h); Request 0;
     Send (Some (errConflictingHeaders latest witnessIndex))].
Proof.
  run_task. rewrite Htoo. simpl. rewrite Hlatest.
  compare_heights. compare_heights. simpl.
  compare_heights. reflexivity.
Qed.

Lemma behind_with_late_time_conflicts_at_once_witness :
  run (compareNewHeaderWithWitness (Examples.client [Examples.skewed])
         Examples.h5 Examples.skewed 0)
  = [Request 5; Request 0;
     Send (Some (errConflictingHeaders Examples.late3 0))].
Proof.
  apply (@behind_with_late_time_conflicts_at_once
           (Examples.client [Examples.skewed]) Examples.h5 Examples.skewed
           0%nat Examples.late3);
    [reflexivity | reflexivity | simpl; lia | simpl; lia].
Defined.

(** C5.  The witness is behind the primary with a latest block older than
    the primary's header, before the wait and after it.  The comparator
    asks for the target height, asks for the latest block, sleeps for the
    waiting period, asks for the latest block once more and sends the
    plain no-response error.  The waiting period is
    [2 * maxClockDrift + maxBlockLag] whenever that fits [int64], and the
    fan-in switch leaves both the matched flag and the removal queue as
    they were on that result. *)
Theorem still_behind_after_wait_is_no_response
        (c : Client) (h : SignedHeader) (witness : Provider)
        (witnessIndex : nat) (first second : LightBlock)
        (Htoo : witness O (Height h) = inr ErrHeightTooHigh)
        (Hfirst : witness 1%nat 0 = inl first)
        (Hbelow1 : Height (Header first) < Height h)
        (Hearly1 : Time (Header first) < Time h)
        (Hsecond : witness 2%nat 0 = inl second)
        (Hbelow2 : Height (Header second) < Height h)
        (Hearly2 : Time (Header second) < Time h) :
  run (compareNewHeaderWithWitness c h witness witnessIndex)
  = [Request (Height h); Request 0; Sleep (waitingPeriod c); Request 0;
     Send (Some (ProviderError ErrNoResponse))]
  /\ (int64 (2 * maxClockDrift c) ->
      int64 (2 * maxClockDrift c + maxBlockLag c) ->
      waitingPeriod c = 2 * maxClockDrift c + maxBlockLag c)
  /\ (forall ws st,
        handleResult ws st (Some (ProviderError ErrNoResponse)) = Some st).
Proof.
  split; [|split].
  - run_task. rewrite Htoo. simpl. rewrite Hfirst.
    compare_heights. compare_heights. simpl.
    compare_heights. simpl. rewrite Hsecond.
    compare_heights. compare_heights. simpl.
    compare_heights. reflexivity.
  - apply waitingPeriod_exact.
  - intros ws [matched queue]. reflexivity.
Qed.

Lemma still_behind_after_wait_is_no_response_witness :
  run (compareNewHeaderWithWitness (Examples.client [Examples.lagging])
         Examples.h5 Examples.lagging 0)
  = [Request 5; Request 0; Sleep 25; Request 0;
     Send (Some (ProviderError ErrNoResponse))].
Proof.
  apply (@still_behind_after_wait_is_no_response
           (Examples.client [Examples.lagging]) Examples.h5 Examples.lagging
           0%nat Examples.early3 Examples.early4);
    [reflexivity | reflexivity | simpl; lia | simpl; lia
     | reflexivity | simpl; lia | simpl; lia].
Defined.

Lemma handleResult_registered (ws : list Provider) (matched : bool)
      (queue : list nat) (e : providerError) (i : nat) :
  (i < List.length ws)%nat ->
  handleResult ws (matched, queue) (Some (errBadWitness e i))
  = Some (matched, if isBadLightBlock e then queue ++ [i] else queue).
Proof.
  intros Hi. simpl.
  destruct (nth_error ws i) eqn:Hnth.
  - now destruct e.
  - apply nth_error_None in Hnth. lia.
Qed.

(** C9.  The witness answers height-too-high at the target height.
    (1) If the first call of [getTargetBlockOrLatest] returns an error,
    whatever it is, the comparator sends that error as it is, and the
    fan-in switch changes neither the matched flag nor the removal queue
    on it.  (2) If the first call finds the witness behind with an older
    block and the second call, after the wait, returns an error, the
    comparator sends it wrapped as a bad-witness result, on which the
    switch queues the witness exactly when the error is an invalid light
    block. *)
Theorem reconciliation_errors_asymmetric
        (c : Client) (h : SignedHeader) (witness : Provider)
        (witnessIndex : nat)
        (Htoo : witness O (Height h) = inr ErrHeightTooHigh) :
  (forall isTargetHeight lightBlock err log1,
      getTargetBlockOrLatest c (Height h) witness [Request (Height h)]
      = (Some (isTargetHeight, lightBlock, Some err), log1) ->
      run (compareNewHeaderWithWitness c h witness witnessIndex)
      = log1 ++ [Send (Some (ProviderError err))]
      /\ forall ws st,
          handleResult ws st (Some (ProviderError err)) = Some st)
  /\ (forall first log1 isTargetHeight lightBlock err log2,
         getTargetBlockOrLatest c (Height h) witness [Request (Height h)]
         = (Some (false, Some first, None), log1) ->
         Time (Header first) < Time h ->
         getTargetBlockOrLatest c (Height h) witness
                                (log1 ++ [Sleep (waitingPeriod c)])
         = (Some (isTargetHeight, lightBlock, Some err), log2) ->
         run (compareNewHeaderWithWitness c h witness witnessIndex)
         = log2 ++ [Send (Some (errBadWitness err witnessIndex))]
         /\ forall ws matched queue,
             (witnessIndex < List.length ws)%nat ->
             handleResult ws (matched, queue)
                          (Some (errBadWitness err witnessIndex))
             = Some (matched,
                     if isBadLightBlock err
                     then queue ++ [witnessIndex] else queue)).
Proof.
  split.
  - intros isT lb err log1 Hcall. split.
    + unfold run, compareNewHeaderWithWitness, bind, LightBlockAt, send.
      change (requests []) with O. rewrite Htoo.
      change ([] ++ [Request (Height h)]) with [Request (Height h)].
      now rewrite Hcall.
    + intros ws [matched queue]. reflexivity.
  - intros first log1 isT lb err log2 Hcall1 Hearly Hcall2. split.
    + unfold run, compareNewHeaderWithWitness, bind, LightBlockAt, send,
        sleep, deref.
      change (requests []) with O. rewrite Htoo.
      change ([] ++ [Request (Height h)]) with [Request (Height h)].
      rewrite Hcall1. compare_heights. cbv beta iota.
      unfold negb. now rewrite Hcall2.
    + intros ws matched queue Hi. now apply handleResult_registered.
Qed.

Lemma reconciliation_errors_asymmetric_witness :
  (run (compareNewHeaderWithWitness (Examples.client [Examples.brokenFirst])
          Examples.h5 Examples.brokenFirst 0)
   = [Request 5; Request 0;
      Send (Some (ProviderError (ErrBadLightBlock "bad signature")))])
  /\ (run (compareNewHeaderWithWitness (Examples.client [Examples.brokenSecond])
             Examples.h5 Examples.brokenSecond 0)
      = [Request 5; Request 0; Sleep 25; Request 0;
         Send (Some (errBadWitness (ErrBadLightBlock "bad signature") 0))]).
Proof.
  split.
  - apply (proj1 (@reconciliation_errors_asymmetric
                    (Examples.client [Examples.brokenFirst]) Examples.h5
                    Examples.brokenFirst 0%nat eq_refl)
                 false None (ErrBadLightBlock "bad signature")
                 [Request 5; Request 0] eq_refl).
  - apply (proj2 (@reconciliation_errors_asymmetric
                    (Examples.client [Examples.brokenSecond]) Examples.h5
                    Examples.brokenSecond 0%nat eq_refl)
                 Examples.early3 [Request 5; Request 0] false None
                 (ErrBadLightBlock "bad signature")
                 [Request 5; Request 0; Sleep 25; Request 0]
                 eq_refl);
      [simpl; lia | reflexivity].
Defined.

(** Case analysis on every answer of the witness and every test of the
    comparator. *)
Ltac each_path :=
  repeat (simpl;
    match goal with
    | |- context [match ?w ?n ?z with inl _ => _ | inr _ => _ end] =>
        destruct (w n z) as [?lb|[]] eqn:?
    | |- context [if Z.eqb ?a ?b then _ else _] => destruct (Z.eqb a b) eqn:?
    | |- context [if Z.gtb ?a ?b then _ else _] => destruct (Z.gtb a b) eqn:?
    | |- context [if negb ?b then _ else _] => destruct b eqn:?
    end).

(** Whatever the witness answers, the comparator never reads through a
    nil block, and it sends either one result, about its own witness, or
    two: a conflicting-headers result for a block whose hash differs
    from the primary's, followed by [nil]. *)
Lemma comparator_sends (c : Client) (h : SignedHeader) (witness : Provider)
      (witnessIndex : nat) :
  let log := run (compareNewHeaderWithWitness c h witness witnessIndex) in
  existsb isPanic log = false
  /\ ((exists m, sent log = [m] /\ about witnessIndex m)
      \/ (exists lightBlock,
             sent log = [Some (errConflictingHeaders lightBlock witnessIndex);
                         None]
             /\ bytesEqual (Hash h) (Hash (Header lightBlock)) = false)).
Proof.
  run_task. each_path;
    (split; [reflexivity|]);
    first [ left; eexists; split; [reflexivity|exact I]
          | left; eexists; split; [reflexivity|reflexivity]
          | right; eexists; split; [reflexivity|assumption] ].
Qed.

Lemma comparator_sends_something (c : Client) (h : SignedHeader)
      (witness : Provider) (witnessIndex : nat) :
  sent (run (compareNewHeaderWithWitness c h witness witnessIndex)) <> [].
Proof.
  destruct (comparator_sends c h witness witnessIndex)
    as [_ [[m [-> _]]|[lb [-> _]]]]; discriminate.
Qed.

Lemma comparator_sends_about (c : Client) (h : SignedHeader)
      (witness : Provider) (witnessIndex : nat) (m : option error) :
  In m (sent (run (compareNewHeaderWithWitness c h witness witnessIndex))) ->
  about witnessIndex m.
Proof.
  destruct (comparator_sends c h witness witnessIndex)
    as [_ [[m' [-> Hm]]|[lb [-> _]]]]; simpl.
  - now intros [<-|[]].
  - intros [<-|[<-|[]]]; simpl; auto.
Qed.

(** C2, at the hash comparison.  Once the witness has answered with a
    light block at the target height, the comparator sends [nil] alone
    when the hashes are equal; when they differ it sends the
    conflicting-headers result and then, the [if] having no [return],
    [nil] as well: two results for one invocation. *)
Theorem hash_comparison_sends
        (c : Client) (h : SignedHeader) (witness : Provider)
        (witnessIndex : nat) (lightBlock : LightBlock)
        (Hanswer : witness O (Height h) = inl lightBlock) :
  (Hash (Header lightBlock) = Hash h ->
   sent (run (compareNewHeaderWithWitness c h witness witnessIndex))
   = [None])
  /\ (Hash (Header lightBlock) <> Hash h ->
      sent (run (compareNewHeaderWithWitness c h witness witnessIndex))
      = [Some (errConflictingHeaders lightBlock witnessIndex); None]).
Proof.
  split; intros Hhash; run_task; rewrite Hanswer; simpl.
  - rewrite Hhash.
    now rewrite (proj2 (bytesEqual_eq (Hash h) (Hash h)) eq_refl).
  - destruct (bytesEqual (Hash h) (Hash (Header lightBlock))) eqn:Heq;
      [|reflexivity].
    apply bytesEqual_eq in Heq. congruence.
Qed.

Lemma hash_comparison_sends_witness :
  sent (run (compareNewHeaderWithWitness (Examples.client [Examples.liar])
               Examples.h5 Examples.liar 0))
  = [Some (errConflictingHeaders Examples.forged 0); None].
Proof.
  apply (proj2 (@hash_comparison_sends (Examples.client [Examples.liar])
                  Examples.h5 Examples.liar 0%nat Examples.forged eq_refl)).
  simpl. discriminate.
Defined.

End ComparatorFacts.

(* ================================================================== *)
(** * Facts about the detector                                          *)
(* ================================================================== *)

Module DetectorFacts.
Import Light Vocabulary.

(** ** The channel *)

Lemma nth_error_replaceNth_same {A : Type} (l : list A) (i : nat) (x y : A) :
  nth_error l i = Some y -> nth_error (replaceNth i x l) i = Some x.
Proof.
  revert i; induction l as [|a l IH]; intros [|i]; simpl;
    try discriminate; auto.
Qed.

Lemma nth_error_replaceNth_other {A : Type} (l : list A) (i j : nat) (x : A) :
  i <> j -> nth_error (replaceNth i x l) j = nth_error l j.
Proof.
  revert i j; induction l as [|a l IH]; intros [|i] [|j] Hij; simpl;
    try reflexivity; try congruence.
  apply IH. congruence.
Qed.

Lemma length_replaceNth {A : Type} (l : list A) (i : nat) (x : A) :
  List.length (replaceNth i x l) = List.length l.
Proof.
  revert i; induction l as [|a l IH]; intros [|i]; simpl; auto.
Qed.

(** Taking the head of one queue takes one message out of the pool. *)
Lemma concat_replaceNth {A : Type} (qs : list (list A)) (i : nat)
      (m : A) (q : list A) :
  nth_error qs i = Some (m :: q) ->
  Permutation (m :: List.concat (replaceNth i q qs)) (List.concat qs).
Proof.
  revert i; induction qs as [|q0 qs IH]; intros [|i]; simpl;
    try discriminate.
  - intros [= ->]. reflexivity.
  - intros Hnth.
    rewrite <- (IH _ Hnth).
    change (m :: q0 ++ List.concat (replaceNth i q qs))
      with ((m :: q0) ++ List.concat (replaceNth i q qs)).
    change (q0 ++ m :: List.concat (replaceNth i q qs))
      with (q0 ++ [m] ++ List.concat (replaceNth i q qs)).
    rewrite app_assoc.
    apply Permutation_app_tail.
    change (m :: q0) with ([m] ++ q0).
    apply Permutation_app_comm.
Qed.

(** What has been delivered was pending, and what is left over is what
    has not been delivered. *)
Lemma deliver_pending (arrival : list nat) (pending : list (list (option error))) :
  exists left, Permutation (deliver arrival pending ++ left) (List.concat pending).
Proof.
  revert pending; induction arrival as [|i rest IH]; intros pending; simpl.
  - now exists (List.concat pending).
  - destruct (nth_error pending i) as [[|m q]|] eqn:Hnth; try apply IH.
    destruct (IH (replaceNth i q pending)) as [left Hleft].
    exists left. simpl.
    rewrite <- (concat_replaceNth _ _ Hnth).
    now apply perm_skip.
Qed.

Lemma deliver_In (arrival : list nat) (pending : list (list (option error)))
      (m : option error) :
  In m (deliver arrival pending) ->
  exists i q, nth_error pending i = Some q /\ In m q.
Proof.
  revert pending; induction arrival as [|i rest IH]; intros pending; simpl;
    [contradiction|].
  destruct (nth_error pending i) as [[|m' q']|] eqn:Hnth; try apply IH.
  intros [<-|Hin].
  - exists i, (m' :: q'). split; [assumption|now left].
  - destruct (IH _ Hin) as [j [q [Hj Hq]]].
    destruct (Nat.eq_dec i j) as [<-|Hij].
    + rewrite (nth_error_replaceNth_same _ _ _ Hnth) in Hj.
      injection Hj as <-.
      exists i, (m' :: q'). split; [assumption|now right].
    + rewrite (nth_error_replaceNth_other _ _ Hij) in Hj.
      now exists j, q.
Qed.

(** When every comparator sends one result and as many results arrive as
    there are comparators, all results arrive. *)
Lemma deliver_everything (arrival : list nat)
      (pending : list (list (option error))) :
  (forall q, In q pending -> List.length q = 1%nat) ->
  (List.length pending <= List.length (deliver arrival pending))%nat ->
  Permutation (deliver arrival pending) (List.concat pending)
  /\ List.length (deliver arrival pending) = List.length pending.
Proof.
  intros Hone Hlen.
  assert (Htotal : List.length (List.concat pending) = List.length pending).
  { clear Hlen. induction pending as [|q qs IH]; simpl; [reflexivity|].
    rewrite length_app, IH by (intros; apply Hone; now right).
    rewrite (Hone q) by now left. reflexivity. }
  destruct (deliver_pending arrival pending) as [left Hleft].
  pose proof (Permutation_length Hleft) as Hl.
  rewrite length_app, Htotal in Hl.
  destruct left as [|x left]; [|simpl in Hl; lia].
  rewrite app_nil_r in Hleft. split; [assumption|].
  simpl in Hl. lia.
Qed.

(** With one arrival per comparator, in registry order, the channel
    holds as many results as there are comparators. *)
Lemma deliver_in_order (n a : nat) (pending : list (list (option error))) :
  (a + n = List.length pending)%nat ->
  (forall i, (a <= i)%nat -> nth_error pending i <> Some []) ->
  List.length (deliver (seq a n) pending) = n.
Proof.
  revert a pending; induction n as [|n IH]; intros a pending Hlen Hne; simpl;
    [reflexivity|].
  destruct (nth_error pending a) as [[|m q]|] eqn:Hnth.
  - exfalso. now apply (Hne a).
  - simpl. f_equal. apply IH.
    + rewrite length_replaceNth. lia.
    + intros i Hi.
      rewrite nth_error_replaceNth_other by lia.
      apply Hne. lia.
  - apply nth_error_None in Hnth. lia.
Qed.

(** ** The comparators of one run *)

Lemma launchFrom_nth (c : Client) (h : SignedHeader) (ws : list Provider)
      (k j : nat) (log : list event) :
  nth_error (launchFrom c h k ws) j = Some log ->
  exists witness,
    nth_error ws j = Some witness
    /\ log = run (compareNewHeaderWithWitness c h witness (k + j)).
Proof.
  revert k j; induction ws as [|w ws IH]; intros k [|j]; simpl;
    try discriminate.
  - intros [= <-]. exists w. now rewrite Nat.add_0_r.
  - intros Hnth. destruct (IH _ _ Hnth) as [w' [Hw' ->]].
    exists w'. split; [assumption|]. f_equal. f_equal. lia.
Qed.

Lemma launchFrom_length (c : Client) (h : SignedHeader) (ws : list Provider)
      (k : nat) :
  List.length (launchFrom c h k ws) = List.length ws.
Proof. revert k; induction ws as [|w ws IH]; intros k; simpl; auto. Qed.

Lemma launchFrom_nth_run (c : Client) (h : SignedHeader) (ws : list Provider)
      (k j : nat) (witness : Provider) :
  nth_error ws j = Some witness ->
  nth_error (launchFrom c h k ws) j
  = Some (run (compareNewHeaderWithWitness c h witness (k + j))).
Proof.
  revert k j; induction ws as [|w ws IH]; intros k [|j]; simpl;
    try discriminate.
  - intros [= ->]. now rewrite Nat.add_0_r.
  - intros Hnth. rewrite (IH (S k) j Hnth). do 3 f_equal. lia.
Qed.

(** No comparator panics. *)
Lemma launch_no_panic (c : Client) (h : SignedHeader) :
  existsb (existsb isPanic) (launch c h) = false.
Proof.
  unfold launch. generalize 0%nat.
  induction (witnesses c) as [|w ws IH]; intros k; simpl; [reflexivity|].
  rewrite IH, orb_false_r.
  apply (ComparatorFacts.comparator_sends c h w k).
Qed.

(** Every result in the channel comes from the comparator of a
    registered witness and is about that witness. *)
Lemma delivered_registered (c : Client) (h : SignedHeader)
      (arrival : list nat) (m : option error) :
  In m (deliver arrival (map sent (launch c h))) ->
  registered (witnesses c) m.
Proof.
  intros Hin.
  destruct (deliver_In _ _ _ Hin) as [i [q [Hq Hm]]].
  rewrite nth_error_map in Hq.
  destruct (nth_error (launch c h) i) as [log|] eqn:Hlog; [|discriminate].
  injection Hq as <-.
  destruct (launchFrom_nth _ _ _ _ _ Hlog) as [w [Hw ->]].
  apply ComparatorFacts.comparator_sends_about in Hm.
  assert (Hi : (i < List.length (witnesses c))%nat)
    by (apply nth_error_Some; congruence).
  destruct m as [[]|]; simpl in *; subst; auto.
Qed.

Lemma In_firstn {A : Type} (n : nat) (l : list A) (x : A) :
  In x (firstn n l) -> In x l.
Proof.
  intros Hin. rewrite <- (firstn_skipn n l).
  apply in_or_app. now left.
Qed.

Lemma received_registered (c : Client) (h : SignedHeader)
      (arrival : list nat) (m : option error) :
  In m (received c h arrival) -> registered (witnesses c) m.
Proof.
  unfold received. intros Hin.
  apply (delivered_registered c h arrival).
  eapply In_firstn; eassumption.
Qed.

(** ** The fan-in loop *)

(** On results about registered witnesses the loop does not panic; its
    flag tells whether some result was [nil] and its queue collects, in
    the order of reception, what each result queues. *)
Lemma fanIn_registered (ws : list Provider) (results : list (option error))
      (matched : bool) (queue : list nat) :
  (forall m, In m results -> registered ws m) ->
  fanIn ws (matched, queue) results
  = Some (matched || existsb isMatch results,
          queue ++ flat_map queuedBy results).
Proof.
  revert matched queue; induction results as [|m rs IH];
    intros matched queue Hreg; simpl fanIn.
  - simpl. now rewrite orb_false_r, app_nil_r.
  - assert (Hrs : forall m', In m' rs -> registered ws m')
      by (intros; apply Hreg; now right).
    assert (Hm : registered ws m) by (apply Hreg; now left).
    destruct m as [e|].
    + destruct e as [e|b i|e i| | |text];
        try (simpl handleResult; rewrite (IH _ _ Hrs); reflexivity).
      * simpl handleResult. rewrite (IH _ _ Hrs). simpl.
        now rewrite <- app_assoc.
      * simpl in Hm.
        destruct (nth_error ws i) eqn:Hnth;
          [|apply nth_error_None in Hnth; lia].
        destruct e; rewrite (IH _ _ Hrs); simpl;
          rewrite <- ?app_assoc; reflexivity.
    + simpl handleResult. rewrite (IH _ _ Hrs). simpl.
      now rewrite orb_true_r.
Qed.

(** Whatever is queued was queued by a conflicting-headers result or by
    a bad-witness result whose reason is an invalid light block. *)
Lemma queued_only_by (results : list (option error)) (i : nat) :
  In i (flat_map queuedBy results) ->
  (exists lightBlock,
      In (Some (errConflictingHeaders lightBlock i)) results)
  \/ (exists reason,
         In (Some (errBadWitness (ErrBadLightBlock reason) i)) results).
Proof.
  rewrite in_flat_map. intros [m [Hm Hi]].
  destruct m as [[e|b j|[] j| | |text]|]; simpl in Hi;
    try contradiction; destruct Hi as [<-|[]]; eauto.
Qed.

Lemma trace_last_block (front : list LightBlock) (lastBlock : LightBlock) :
  nth_error (front ++ [lastBlock]) (List.length (front ++ [lastBlock]) - 1)
  = Some lastBlock.
Proof.
  rewrite length_app. simpl.
  replace (List.length front + 1 - 1)%nat with (List.length front) by lia.
  rewrite nth_error_app2 by lia.
  now rewrite Nat.sub_diag.
Qed.

Lemma setWitnesses_same (c : Client) : setWitnesses c (witnesses c) = c.
Proof. now destruct c. Qed.

(** ** [detectDivergence] *)

Section Decision.

Variable removeWitnesses :
  list nat -> list Provider -> option error * list Provider.

(** C7.  A trace that is nil or holds fewer than two blocks is
    rejected with the input-validation error, whatever the registry
    holds: the call does nothing else, it neither takes the mutex nor
    starts a comparator, and the client is as it was. *)
Theorem short_trace_rejected
        (c : Client) (primaryTrace : list LightBlock) (now : Z)
        (arrival : list nat)
        (Hshort : (List.length primaryTrace < 2)%nat) :
  detectDivergence removeWitnesses c primaryTrace now arrival
  = Returned {| returned := Some (errorsNew "nil or single block primary trace");
                after := c;
                actions := [] |}.
Proof.
  unfold detectDivergence.
  now apply Nat.ltb_lt in Hshort as ->.
Qed.

(** C8.  With a trace of at least two blocks and an empty registry the
    call fails with the no-witnesses error: between taking and
    releasing the mutex it does nothing, so no comparator is started
    and no witness is asked, and the registry is as it was. *)
Theorem no_witnesses_rejected
        (c : Client) (primaryTrace : list LightBlock) (now : Z)
        (arrival : list nat)
        (Hlong : (2 <= List.length primaryTrace)%nat)
        (Hnone : witnesses c = []) :
  detectDivergence removeWitnesses c primaryTrace now arrival
  = Returned {| returned := Some ErrNoWitnesses;
                after := c;
                actions := [Lock; Unlock] |}.
Proof.
  unfold detectDivergence.
  destruct (Nat.ltb_spec (List.length primaryTrace) 2) as [Hlt|_]; [lia|].
  destruct (nth_error primaryTrace (List.length primaryTrace - 1))
    as [lastBlock|] eqn:Hlast.
  - now rewrite Hnone.
  - apply nth_error_None in Hlast. lia.
Qed.

(** With a trace of at least two blocks, a witness registered and
    enough results arriving, the call reaches the removal and the
    decision with the flag and the queue of the fan-in loop. *)
Lemma detectDivergence_reaches_decision
      (c : Client) (front : list LightBlock) (lastBlock : LightBlock)
      (now : Z) (arrival : list nat) :
  front <> [] ->
  witnesses c <> [] ->
  (List.length (witnesses c)
   <= List.length (deliver arrival
                           (map sent (launch c (Header lastBlock)))))%nat ->
  let results := received c (Header lastBlock) arrival in
  detectDivergence removeWitnesses c (front ++ [lastBlock]) now arrival
  = decide removeWitnesses c
           (Lock :: goActions 0 (launch c (Header lastBlock))
                 ++ map Receive results)
           (existsb isMatch results) (flat_map queuedBy results).
Proof.
  intros Hfront Hws Harrive results. unfold detectDivergence.
  destruct (Nat.ltb_spec (List.length (front ++ [lastBlock])) 2) as [Hlt|_].
  { rewrite length_app in Hlt. destruct front; [congruence|]. simpl in Hlt. lia. }
  rewrite trace_last_block.
  destruct (Nat.eqb_spec (List.length (witnesses c)) 0) as [Hz|_].
  { destruct (witnesses c); [congruence|discriminate]. }
  rewrite launch_no_panic.
  apply Nat.ltb_ge in Harrive. rewrite Harrive.
  fold results.
  rewrite (fanIn_registered (witnesses c) results false []
             (received_registered c (Header lastBlock) arrival)).
  reflexivity.
Qed.

End Decision.

Lemma short_trace_rejected_witness :
  detectDivergence compactWitnesses
                   (Examples.client [Examples.honest]) [Examples.target]
                   0%Z [0%nat]
  = Returned {| returned := Some (errorsNew "nil or single block primary trace");
                after := Examples.client [Examples.honest];
                actions := [] |}.
Proof.
  apply (@short_trace_rejected compactWitnesses
           (Examples.client [Examples.honest]) [Examples.target] 0%Z [0%nat]).
  simpl. lia.
Defined.

Lemma no_witnesses_rejected_witness :
  detectDivergence compactWitnesses (Examples.client []) Examples.trace
                   0%Z []
  = Returned {| returned := Some ErrNoWitnesses;
                after := Examples.client [];
                actions := [Lock; Unlock] |}.
Proof.
  apply (@no_witnesses_rejected compactWitnesses (Examples.client [])
           Examples.trace 0%Z []); [simpl; lia | reflexivity].
Defined.

Section Pruning.

Variable removeWitnesses :
  list nat -> list Provider -> option error * list Provider.

(** X19.  With a trace of at least two blocks, a
    witness registered and one result received per witness, the call
    returns.  Before it returns it has passed to [removeWitnesses],
    in one batch, the index of every conflicting-headers result it
    received, and its registry is the one that [removeWitnesses]
    left.  If [removeWitnesses] reports no error, the call returns
    [nil] when one of the received results is [nil] and the
    cross-referencing failure otherwise; if [removeWitnesses] reports
    an error, the call returns that error. *)
Theorem detectDivergence_decision
        (c : Client) (front : list LightBlock) (lastBlock : LightBlock)
        (now : Z) (arrival : list nat)
        (Hfront : front <> [])
        (Hws : witnesses c <> [])
        (Harrive :
           (List.length (witnesses c)
            <= List.length (deliver arrival
                              (map sent (launch c (Header lastBlock)))))%nat) :
  let results := received c (Header lastBlock) arrival in
  let queue := flat_map queuedBy results in
  exists o,
    detectDivergence removeWitnesses c (front ++ [lastBlock]) now arrival
    = Returned o
    /\ actions o
       = (Lock :: goActions 0 (launch c (Header lastBlock))
               ++ map Receive results)
           ++ [RemoveWitnesses queue] ++ [Unlock]
    /\ after o = setWitnesses c (snd (removeWitnesses queue (witnesses c)))
    /\ (forall lightBlock i,
           In (Some (errConflictingHeaders lightBlock i)) results ->
           In i queue)
    /\ (fst (removeWitnesses queue (witnesses c)) = None ->
        returned o = if existsb isMatch results
                     then None
                     else Some ErrFailedHeaderCrossReferencing)
    /\ (forall err,
           fst (removeWitnesses queue (witnesses c)) = Some err ->
           returned o = Some err).
Proof.
  intros results queue.
  rewrite (detectDivergence_reaches_decision removeWitnesses c lastBlock
             now arrival Hfront Hws Harrive).
  fold results. fold queue. unfold decide.
  assert (Hqueued : forall lightBlock i,
             In (Some (errConflictingHeaders lightBlock i)) results ->
             In i queue).
  { intros lightBlock i Hin. unfold queue. apply in_flat_map.
    exists (Some (errConflictingHeaders lightBlock i)).
    split; [assumption|now left]. }
  destruct (removeWitnesses queue (witnesses c)) as [[err|] ws'] eqn:Hrm;
    [|destruct (existsb isMatch results)];
    eexists; (split; [reflexivity|]); simpl;
    rewrite <- ?app_assoc;
    (split; [reflexivity|]); (split; [reflexivity|]);
    (split; [exact Hqueued|]); split;
    congruence.
Qed.

End Pruning.

Lemma detectDivergence_decision_witness :
  exists o,
    detectDivergence compactWitnesses
      (Examples.client [Examples.liar; Examples.honest])
      Examples.trace 0%Z [0%nat; 1%nat]
    = Returned o
    /\ returned o = None
    /\ List.length (witnesses (after o)) = 1%nat.
Proof.
  destruct (@detectDivergence_decision compactWitnesses
              (Examples.client [Examples.liar; Examples.honest])
              [Examples.anchor] Examples.target 0%Z [0%nat; 1%nat])
    as [o [Hret [_ [Hafter [_ [Hok _]]]]]].
  - discriminate.
  - discriminate.
  - simpl. lia.
  - exists o. split; [exact Hret|]. split.
    + apply Hok. reflexivity.
    + rewrite Hafter. reflexivity.
Defined.

(** C1, at a run where the code departs from it.  Two witnesses are
    registered and both answer at the target height with a block of
    another hash, so no witness matches and each comparator sends a
    conflicting-headers result followed by [nil].  The two results of the
    first comparator arrive first.  The detector takes the second of them
    for a match: it returns [nil] instead of the cross-referencing
    failure, and the second witness, whose conflicting-headers result was
    sent but not received, is not in the batch handed to
    [removeWitnesses] and stays registered. *)
Lemma conflicting_witness_counts_as_match :
  let c := Examples.client [Examples.liar; Examples.liar] in
  received c Examples.h5 [0%nat; 0%nat; 1%nat; 1%nat]
  = [Some (errConflictingHeaders Examples.forged 0); None]
  /\ exists o,
      detectDivergence compactWitnesses c Examples.trace 0%Z
                       [0%nat; 0%nat; 1%nat; 1%nat]
      = Returned o
      /\ returned o = None
      /\ List.length (witnesses (after o)) = 1%nat
      /\ In (RemoveWitnesses [0%nat]) (actions o)
      /\ Hash (Header Examples.forged) <> Hash Examples.h5
      /\ sent (run (compareNewHeaderWithWitness c Examples.h5
                                                Examples.liar 1))
         = [Some (errConflictingHeaders Examples.forged 1); None].
Proof.
  split; [reflexivity|].
  eexists. split; [reflexivity|].
  split; [reflexivity|]. split; [reflexivity|].
  split; [simpl; intuition|].
  split; [discriminate|reflexivity].
Qed.

(** Every comparator sends at least one result: when the results arrive
    one per witness in registry order, the fan-in loop is served. *)
Lemma in_order_arrival_suffices (c : Client) (h : SignedHeader) :
  List.length (deliver (seq 0 (List.length (witnesses c)))
                       (map sent (launch c h)))
  = List.length (witnesses c).
Proof.
  apply deliver_in_order.
  - unfold launch. now rewrite length_map, launchFrom_length.
  - intros i _ Hnth. rewrite nth_error_map in Hnth.
    destruct (nth_error (launch c h) i) as [log|] eqn:Hlog; [|discriminate].
    destruct (launchFrom_nth _ _ _ _ _ Hlog) as [w [_ ->]].
    injection Hnth as Hnil.
    now apply ComparatorFacts.comparator_sends_something in Hnil.
Qed.

Lemma flat_map_nil {A B : Type} (f : A -> list B) (l : list A) :
  (forall x, In x l -> f x = []) -> flat_map f l = [].
Proof.
  induction l as [|x l IH]; intros Hall; simpl; [reflexivity|].
  rewrite (Hall x) by now left.
  apply IH. intros; apply Hall; now right.
Qed.

Lemma In_concat_nth {A : Type} (qs : list (list A)) (i : nat) (q : list A)
      (x : A) :
  nth_error qs i = Some q -> In x q -> In x (List.concat qs).
Proof.
  intros Hnth Hx. apply in_concat. exists q.
  split; [eapply nth_error_In; eassumption|assumption].
Qed.

Section Penalties.

Variable removeWitnesses :
  list nat -> list Provider -> option error * list Provider.

(** C3.  In a run that reaches the fan-in loop:
    (1) on a bad-witness result the switch queues the witness exactly
    when the reason is an invalid light block;
    (2) a plain provider error (no response, block not found) changes
    neither the flag nor the queue;
    (3) the batch handed to [removeWitnesses] holds only witnesses
    named by a received conflicting-headers result or by a received
    bad-witness result with an invalid light block;
    (4) when the comparator of one witness reports a match and the
    comparators of all others report no response, that batch is
    empty and, a registry leaving itself alone on the empty batch,
    the call returns [nil] with the client as it was. *)
Theorem only_invalid_blocks_are_penalised
        (c : Client) (front : list LightBlock) (lastBlock : LightBlock)
        (now : Z) (arrival : list nat)
        (Hfront : front <> [])
        (Hws : witnesses c <> [])
        (Harrive :
           (List.length (witnesses c)
            <= List.length (deliver arrival
                              (map sent (launch c (Header lastBlock)))))%nat) :
  let h := Header lastBlock in
  let results := received c h arrival in
  let queue := flat_map queuedBy results in
  (forall matched q e i,
      (i < List.length (witnesses c))%nat ->
      handleResult (witnesses c) (matched, q) (Some (errBadWitness e i))
      = Some (matched, if isBadLightBlock e then q ++ [i] else q))
  /\ (forall st e,
         handleResult (witnesses c) st (Some (ProviderError e)) = Some st)
  /\ (fanIn (witnesses c) (false, []) results
      = Some (existsb isMatch results, queue)
      /\ forall i, In i queue ->
           (exists lightBlock,
               In (Some (errConflictingHeaders lightBlock i)) results)
           \/ (exists reason,
                  In (Some (errBadWitness (ErrBadLightBlock reason) i))
                     results))
  /\ (forall k wk,
         nth_error (witnesses c) k = Some wk ->
         sent (run (compareNewHeaderWithWitness c h wk k)) = [None] ->
         (forall i w, i <> k -> nth_error (witnesses c) i = Some w ->
                      sent (run (compareNewHeaderWithWitness c h w i))
                      = [Some (ProviderError ErrNoResponse)]) ->
         queue = []
         /\ exists o,
             detectDivergence removeWitnesses c (front ++ [lastBlock])
                              now arrival
             = Returned o
             /\ actions o
                = (Lock :: goActions 0 (launch c h) ++ map Receive results)
                    ++ [RemoveWitnesses []] ++ [Unlock]
             /\ (removeWitnesses [] (witnesses c) = (None, witnesses c) ->
                 returned o = None /\ after o = c)).
Proof.
  intros h results queue.
  split; [intros; now apply ComparatorFacts.handleResult_registered|].
  split; [intros [matched q] e; reflexivity|].
  split.
  { split.
    - apply (fanIn_registered (witnesses c) results false []
               (received_registered c h arrival)).
    - apply queued_only_by. }
  intros k wk Hk Hmatch Hrest.
  set (pending := map sent (launch c h)).
  assert (Hshape : forall j q, nth_error pending j = Some q ->
             (j = k /\ q = [None])
             \/ (j <> k /\ q = [Some (ProviderError ErrNoResponse)])).
  { intros j q Hq. unfold pending in Hq. rewrite nth_error_map in Hq.
    destruct (nth_error (launch c h) j) as [log|] eqn:Hlog; [|discriminate].
    injection Hq as <-.
    destruct (launchFrom_nth _ _ _ _ _ Hlog) as [w [Hw ->]]. simpl.
    destruct (Nat.eq_dec j k) as [->|Hjk].
    - left. split; [reflexivity|]. congruence.
    - right. split; [assumption|]. now apply Hrest. }
  assert (Hone : forall q, In q pending -> List.length q = 1%nat).
  { intros q Hq. apply In_nth_error in Hq as [j Hj].
    destruct (Hshape _ _ Hj) as [[_ ->]|[_ ->]]; reflexivity. }
  destruct (deliver_everything arrival pending Hone) as [Hperm Hlen].
  { unfold pending at 1. unfold launch.
    rewrite length_map, launchFrom_length. exact Harrive. }
  assert (Hall : results = deliver arrival pending).
  { unfold results, received. fold pending.
    apply firstn_all2. rewrite Hlen. unfold pending, launch.
    rewrite length_map, launchFrom_length. lia. }
  assert (Hkinds : forall m, In m results ->
             m = None \/ m = Some (ProviderError ErrNoResponse)).
  { intros m Hm. rewrite Hall in Hm.
    apply (Permutation_in _ Hperm) in Hm.
    apply in_concat in Hm as [q [Hq Hmq]].
    apply In_nth_error in Hq as [j Hj].
    destruct (Hshape _ _ Hj) as [[_ ->]|[_ ->]];
      destruct Hmq as [<-|[]]; auto. }
  assert (Hnil : existsb isMatch results = true).
  { apply existsb_exists. exists None. split; [|reflexivity].
    rewrite Hall. apply (Permutation_in _ (Permutation_sym Hperm)).
    apply (In_concat_nth pending k (q := [None])); [|now left].
    unfold pending. rewrite nth_error_map.
    unfold launch. rewrite (@launchFrom_nth_run c h _ 0 k wk Hk). simpl.
    now rewrite Hmatch. }
  assert (Hqueue : queue = []).
  { unfold queue. apply flat_map_nil. intros m Hm.
    destruct (Hkinds m Hm) as [->| ->]; reflexivity. }
  split; [exact Hqueue|].
  rewrite (detectDivergence_reaches_decision removeWitnesses c lastBlock
             now arrival Hfront Hws Harrive).
  fold h. fold results. fold queue. rewrite Hqueue, Hnil. unfold decide.
  destruct (removeWitnesses [] (witnesses c)) as [[err|] ws'] eqn:Hrm;
    eexists; (split; [reflexivity|]); simpl; rewrite <- ?app_assoc;
    (split; [reflexivity|]); intros [= ->].
  split; [reflexivity|apply setWitnesses_same].
Qed.

End Penalties.

Lemma only_invalid_blocks_are_penalised_witness :
  let c := Examples.client [Examples.silent; Examples.honest; Examples.silent] in
  exists o,
    detectDivergence compactWitnesses c Examples.trace 0%Z
                     [2%nat; 0%nat; 1%nat]
    = Returned o
    /\ returned o = None
    /\ after o = c.
Proof.
  intros c.
  destruct (@only_invalid_blocks_are_penalised compactWitnesses c
              [Examples.anchor] Examples.target 0%Z [2%nat; 0%nat; 1%nat])
    as [_ [_ [_ Hscenario]]].
  - discriminate.
  - discriminate.
  - simpl. lia.
  - destruct (Hscenario 1%nat Examples.honest eq_refl eq_refl)
      as [_ [o [Hret [_ Hsame]]]].
    + intros [|[|[|i]]] w Hik Hw; try congruence;
        try (injection Hw as <-; reflexivity).
      destruct i; discriminate.
    + exists o. split; [exact Hret|]. now apply Hsame.
Defined.

End DetectorFacts.

(* ================================================================== *)
(** * Facts about the JSON encoding and the reversal of [HexBytes]      *)
(* ================================================================== *)

Module BytesOpsFacts.
Import Bytes BytesOps.

(** ** Stores and copies *)

Lemma store_head (v x : byte) (s : list byte) :
  store 0 v (x :: s) = Some (v :: s).
Proof. reflexivity. Qed.

Lemma store_app (pre : list byte) (v x : byte) (post : list byte) :
  store (List.length pre) v (pre ++ x :: post) = Some (pre ++ v :: post).
Proof.
  induction pre as [|y pre IH]; simpl; [reflexivity|].
  now rewrite IH.
Qed.

Lemma copy_make (s : list byte) (k : nat) :
  copy (make (List.length s + k)) s = s ++ make k.
Proof.
  unfold make. induction s as [|x s IH]; simpl.
  - now destruct k.
  - now rewrite IH.
Qed.

Lemma length_elements (bz : HexBytes) :
  wf bz -> List.length (elements bz) = len bz.
Proof.
  unfold wf, cap, elements. intros Hwf.
  rewrite length_firstn. lia.
Qed.

Lemma length_UpperHex (bs : list byte) :
  List.length (list_byte_of_string (UpperHex bs)) = (2 * List.length bs)%nat.
Proof.
  unfold UpperHex, list_byte_of_string.
  rewrite list_ascii_of_string_of_list_ascii, length_map.
  induction bs as [|v bs IH]; simpl; [reflexivity|].
  rewrite IH. lia.
Qed.

Lemma MarshalJSON_output (bz : HexBytes) :
  MarshalJSON bz
  = Some (quote :: list_byte_of_string (UpperHex (elements bz)) ++ [quote],
          None).
Proof.
  unfold MarshalJSON.
  change (ToUpper (EncodeToString bz)) with (String_ bz).
  rewrite BytesFacts.String_UpperHex.
  set (s := list_byte_of_string (UpperHex (elements bz))).
  replace (List.length s + 2)%nat with (S (List.length s + 1)) by lia.
  change (make (S (List.length s + 1)))
    with (x00 :: make (List.length s + 1)).
  rewrite store_head.
  change (firstn 1 (quote :: make (List.length s + 1))) with [quote].
  change (skipn 1 (quote :: make (List.length s + 1)))
    with (make (List.length s + 1)).
  rewrite copy_make.
  change ([quote] ++ s ++ make 1) with ((quote :: s) ++ [x00]).
  replace (List.length ((quote :: s) ++ [x00]) - 1)%nat
    with (List.length (quote :: s))
    by (rewrite length_app; simpl; lia).
  now rewrite store_app.
Qed.

(** X1.  [MarshalJSON] never panics and never returns an error.  Its
    output is a double quote, the upper-case hexadecimal digits of the
    elements, two per byte, and a double quote: [2 * len(bz) + 2] bytes. *)
Theorem MarshalJSON_quoted_hex (bz : HexBytes) (Hwf : wf bz) :
  exists data,
    MarshalJSON bz = Some (data, None)
    /\ data = quote :: list_byte_of_string (UpperHex (elements bz)) ++ [quote]
    /\ List.length data = (2 * len bz + 2)%nat.
Proof.
  eexists. split; [apply MarshalJSON_output|]. split; [reflexivity|].
  simpl. rewrite length_app, length_UpperHex.
  rewrite (length_elements Hwf). simpl. lia.
Qed.

Lemma MarshalJSON_quoted_hex_witness :
  MarshalJSON Examples.prefix2
  = Some ([x22; x41; x42; x43; x44; x22], None).
Proof.
  assert (Hwf : wf Examples.prefix2) by (unfold wf; cbv; lia).
  destruct (MarshalJSON_quoted_hex Hwf) as [data [Hout [-> _]]].
  exact Hout.
Defined.

(** ** Decoding *)

(** The two upper-case digits of a byte decode to that byte, and so do
    its two lower-case digits. *)
Lemma decode_upper_digits (v : byte) :
  match fromHexChar (byte_of_ascii (upperHexDigit (Byte.to_N v / 16))),
        fromHexChar (byte_of_ascii (upperHexDigit (Byte.to_N v mod 16))) with
  | Some a, Some b => joinNibbles a b = v
  | _, _ => False
  end.
Proof. destruct v; vm_compute; reflexivity. Qed.

Lemma decode_lower_digits (v : byte) :
  match map byte_of_ascii (encodeByte v) with
  | [p; q] =>
      match fromHexChar p, fromHexChar q with
      | Some a, Some b => joinNibbles a b = v
      | _, _ => False
      end
  | _ => False
  end.
Proof. destruct v; vm_compute; reflexivity. Qed.

Lemma DecodeString_UpperHex (bs : list byte) :
  DecodeString (list_byte_of_string (UpperHex bs)) = (bs, None).
Proof.
  unfold UpperHex, list_byte_of_string.
  rewrite list_ascii_of_string_of_list_ascii.
  induction bs as [|v bs IH]; [reflexivity|].
  cbn [flat_map app map].
  pose proof (decode_upper_digits v) as Hv.
  cbn [DecodeString].
  destruct (fromHexChar (byte_of_ascii (upperHexDigit (Byte.to_N v / 16))));
    [|contradiction].
  destruct (fromHexChar (byte_of_ascii (upperHexDigit (Byte.to_N v mod 16))));
    [|contradiction].
  now rewrite IH, Hv.
Qed.

Lemma DecodeString_lower (bs : list byte) :
  DecodeString (map byte_of_ascii (flat_map encodeByte bs)) = (bs, None).
Proof.
  induction bs as [|v bs IH]; [reflexivity|].
  cbn [flat_map]. rewrite map_app.
  pose proof (decode_lower_digits v) as Hv.
  destruct (map byte_of_ascii (encodeByte v)) as [|p [|q [|r l]]];
    try contradiction.
  cbn [app DecodeString].
  destruct (fromHexChar p); [|contradiction].
  destruct (fromHexChar q); [|contradiction].
  now rewrite IH, Hv.
Qed.



(** What stands between the quotes of a quoted text. *)
Lemma between_quotes (s : list byte) :
  let data := quote :: s ++ [quote] in
  (List.length data <? 2)%nat = false
  /\ nth 0 data x00 = quote
  /\ nth (List.length data - 1) data x00 = quote
  /\ firstn (List.length data - 1 - 1) (skipn 1 data) = s.
Proof.
  cbn zeta. repeat split.
  - apply Nat.ltb_ge. simpl. rewrite length_app. simpl. lia.
  - change (quote :: s ++ [quote]) with ((quote :: s) ++ [quote]).
    replace (List.length ((quote :: s) ++ [quote]) - 1)%nat
      with (List.length (quote :: s)) by (rewrite length_app; simpl; lia).
    now rewrite nth_middle.
  - simpl. rewrite length_app. simpl.
    replace (List.length s + 1 - 0 - 1)%nat with (List.length s) by lia.
    rewrite firstn_app, firstn_all, Nat.sub_diag. simpl.
    apply app_nil_r.
Qed.

Lemma UnmarshalJSON_quoted (old s out : list byte) :
  DecodeString s = (out, None) ->
  UnmarshalJSON old (quote :: s ++ [quote]) = (None, out).
Proof.
  intros Hdec. unfold UnmarshalJSON.
  destruct (between_quotes s) as [Hlen [Hfirst [Hlast Hmid]]].
  rewrite Hlen, Hfirst, Hlast, Hmid, Hdec.
  reflexivity.
Qed.

(** X2.  Round trip: what [MarshalJSON] writes, [UnmarshalJSON] reads back
    without error, and the receiver then holds the elements of the
    marshalled value, whatever it held before. *)
Theorem UnmarshalJSON_MarshalJSON (bz : HexBytes) (old : list byte) :
  exists data,
    MarshalJSON bz = Some (data, None)
    /\ UnmarshalJSON old data = (None, elements bz).
Proof.
  eexists. split; [apply MarshalJSON_output|].
  apply UnmarshalJSON_quoted, DecodeString_UpperHex.
Qed.

(** X3.  [UnmarshalJSON] reads lower-case digits as well: the quoted
    output of [hex.EncodeToString], not upper-cased, is read back to the
    same elements. *)
Theorem UnmarshalJSON_lower_case (bz : HexBytes) (old : list byte) :
  UnmarshalJSON old
    (quote :: list_byte_of_string (EncodeToString bz) ++ [quote])
  = (None, elements bz).
Proof.
  apply UnmarshalJSON_quoted.
  unfold EncodeToString, list_byte_of_string.
  rewrite list_ascii_of_string_of_list_ascii.
  apply DecodeString_lower.
Qed.



(** ** Reversal *)

Lemma nth_error_middle (pre : list byte) (x : byte) (post : list byte) :
  nth_error (pre ++ x :: post) (List.length pre) = Some x.
Proof.
  rewrite nth_error_app2 by lia. now rewrite Nat.sub_diag.
Qed.

(** The loop reverses the part of the slice between its two indexes and
    leaves the rest alone; half as many turns as that part is long are
    enough. *)
Lemma reverseLoop_reverses (fuel : nat) :
  forall pre mid post : list byte,
    (List.length mid <= 2 * fuel + 1)%nat ->
    reverseLoop fuel (Z.of_nat (List.length pre))
                (Z.of_nat (List.length pre) + Z.of_nat (List.length mid) - 1)
                (pre ++ mid ++ post)
    = Some (pre ++ rev mid ++ post).
Proof.
  induction fuel as [|fuel IH]; intros pre mid post Hfuel.
  - destruct mid as [|x [|y mid]]; simpl in Hfuel; try lia.
    + cbn [reverseLoop]. destruct (Z.ltb_spec (Z.of_nat (List.length pre))
        (Z.of_nat (List.length pre) + Z.of_nat (List.length (@nil byte)) - 1));
        [simpl in *; lia|reflexivity].
    + cbn [reverseLoop]. destruct (Z.ltb_spec (Z.of_nat (List.length pre))
        (Z.of_nat (List.length pre) + Z.of_nat (List.length [x]) - 1));
        [simpl in *; lia|reflexivity].
  - destruct mid as [|x mid].
    { cbn [reverseLoop]. destruct (Z.ltb_spec (Z.of_nat (List.length pre))
        (Z.of_nat (List.length pre) + Z.of_nat (List.length (@nil byte)) - 1));
        [simpl in *; lia|reflexivity]. }
    destruct (exists_last (l := x :: mid)) as [front [y Hlast]];
      [discriminate|].
    destruct front as [|x' inner].
    { simpl in Hlast. injection Hlast as -> ->.
      cbn [reverseLoop]. destruct (Z.ltb_spec (Z.of_nat (List.length pre))
        (Z.of_nat (List.length pre) + Z.of_nat (List.length [y]) - 1));
        [simpl in *; lia|reflexivity]. }
    simpl in Hlast. injection Hlast as <- ->.
    cbn [reverseLoop].
    set (i := Z.of_nat (List.length pre)).
    set (j := (i + Z.of_nat (List.length (x :: inner ++ [y])) - 1)%Z).
    assert (Hj : j = Z.of_nat (List.length (pre ++ x :: inner))).
    { unfold j, i. rewrite length_app. simpl. rewrite length_app. simpl. lia. }
    destruct (Z.ltb_spec i j) as [_|Hge];
      [|rewrite Hj, length_app in Hge; unfold i in Hge; simpl in Hge; lia].
    destruct (Z.ltb_spec i 0) as [Hneg|_]; [unfold i in Hneg; lia|].
    unfold i at 1 2. rewrite Nat2Z.id.
    assert (Hjn : Z.to_nat j = List.length (pre ++ x :: inner))
      by (rewrite Hj; apply Nat2Z.id).
    rewrite !Hjn.
    change (pre ++ (x :: inner ++ [y]) ++ post)
      with (pre ++ x :: (inner ++ [y]) ++ post).
    rewrite nth_error_middle.
    replace (pre ++ x :: (inner ++ [y]) ++ post)
      with ((pre ++ x :: inner) ++ y :: post)
      by (rewrite <- !app_assoc; reflexivity).
    rewrite nth_error_middle.
    replace ((pre ++ x :: inner) ++ y :: post)
      with (pre ++ x :: inner ++ y :: post)
      by (rewrite <- !app_assoc; reflexivity).
    rewrite store_app.
    replace (pre ++ y :: inner ++ y :: post)
      with ((pre ++ y :: inner) ++ y :: post)
      by (rewrite <- !app_assoc; reflexivity).
    replace (List.length (pre ++ x :: inner))
      with (List.length (pre ++ y :: inner))
      by (rewrite !length_app; reflexivity).
    rewrite store_app.
    replace ((pre ++ y :: inner) ++ x :: post)
      with ((pre ++ [y]) ++ inner ++ ([x] ++ post))
      by (rewrite <- !app_assoc; reflexivity).
    replace (i + 1)%Z with (Z.of_nat (List.length (pre ++ [y])))
      by (unfold i; rewrite length_app; simpl; lia).
    replace (j - 1)%Z
      with (Z.of_nat (List.length (pre ++ [y]))
            + Z.of_nat (List.length inner) - 1)%Z
      by (rewrite Hj, !length_app; simpl; lia).
    rewrite IH
      by (simpl in Hfuel; rewrite length_app in Hfuel; simpl in Hfuel; lia).
    f_equal. simpl. rewrite rev_app_distr. simpl.
    rewrite <- !app_assoc. reflexivity.
Qed.

Lemma of_list_wf (l : list byte) : wf (of_list l).
Proof. unfold wf, of_list, cap. simpl. lia. Qed.

Lemma elements_of_list (l : list byte) : elements (of_list l) = l.
Proof. unfold elements, of_list. simpl. apply firstn_all. Qed.

Lemma ReversedBytes_rev (bz : HexBytes) :
  wf bz -> ReversedBytes bz = Some (of_list (rev (elements bz))).
Proof.
  intros Hwf.
  assert (Hcopy : copy (make (len bz)) (elements bz) = elements bz).
  { rewrite <- (length_elements Hwf) at 1.
    rewrite <- (Nat.add_0_r (List.length (elements bz))).
    rewrite copy_make. apply app_nil_r. }
  unfold ReversedBytes. rewrite Hcopy.
  pose proof (@reverseLoop_reverses (List.length (elements bz)) []
                (elements bz) []) as Hloop.
  cbn [List.length app Z.of_nat Z.add] in Hloop.
  rewrite !app_nil_r in Hloop.
  rewrite Hloop by lia. reflexivity.
Qed.

(** X5.  [ReversedBytes] never panics: it returns a fresh slice, as long
    as the receiver and with no spare capacity, that holds the elements
    of the receiver in reverse order. *)
Theorem ReversedBytes_reverses (bz : HexBytes) (Hwf : wf bz) :
  exists reversed,
    ReversedBytes bz = Some reversed
    /\ elements reversed = rev (elements bz)
    /\ len reversed = len bz
    /\ cap reversed = len bz.
Proof.
  exists (of_list (rev (elements bz))).
  split; [now apply ReversedBytes_rev|].
  split; [apply elements_of_list|].
  unfold of_list, cap. cbn [len array].
  rewrite length_rev. split; apply (length_elements Hwf).
Qed.

Lemma ReversedBytes_reverses_witness :
  ReversedBytes Examples.prefix2 = Some (of_list [xcd; xab]).
Proof.
  assert (Hwf : wf Examples.prefix2) by (unfold wf; cbv; lia).
  destruct (ReversedBytes_reverses Hwf) as [reversed [Hrev _]].
  rewrite Hrev. f_equal.
  rewrite (ReversedBytes_rev Hwf) in Hrev. now injection Hrev as <-.
Defined.

(** X6.  Reversing twice gives back the elements: [ReversedBytes] of the
    result of [ReversedBytes] holds the elements of the first receiver, in
    their order. *)
Theorem ReversedBytes_twice (bz : HexBytes) (Hwf : wf bz) :
  exists once,
    ReversedBytes bz = Some once
    /\ ReversedBytes once = Some (of_list (elements bz)).
Proof.
  exists (of_list (rev (elements bz))). split.
  - now apply ReversedBytes_rev.
  - rewrite (ReversedBytes_rev (of_list_wf (rev (elements bz)))).
    rewrite elements_of_list. now rewrite rev_involutive.
Qed.

Lemma ReversedBytes_twice_witness :
  exists once,
    ReversedBytes Examples.prefix2 = Some once
    /\ ReversedBytes once = Some (of_list [xab; xcd]).
Proof.
  assert (Hwf : wf Examples.prefix2) by (unfold wf; cbv; lia).
  apply (ReversedBytes_twice Hwf).
Defined.

(** X7.  For a value of at least three bytes, [ShortString] is the first
    six characters of [String]. *)
Theorem ShortString_prefix_of_String (bz : HexBytes) (Hwf : wf bz)
        (Hlen : (3 <= len bz)%nat) :
  ShortString bz = Some (substring 0 6 (String_ bz)).
Proof.
  unfold ShortString.
  rewrite BytesFacts.slice_to_Some by (unfold wf in Hwf; lia).
  change (ToUpper (EncodeToString {| array := array bz; len := 3 |}))
    with (String_ {| array := array bz; len := 3 |}).
  rewrite !BytesFacts.String_UpperHex.
  change (elements {| array := array bz; len := 3 |})
    with (firstn 3 (array bz)).
  rewrite (BytesFacts.first_three bz Hlen).
  pose proof (length_elements Hwf) as Hel.
  destruct (elements bz) as [|a [|b [|c rest]]]; simpl in Hel; try lia.
  f_equal. unfold UpperHex. cbn [firstn flat_map app string_of_list_ascii].
  cbn [substring]. now destruct (string_of_list_ascii _).
Qed.

Lemma ShortString_prefix_of_String_witness :
  ShortString Examples.four = Some (substring 0 6 (String_ Examples.four)).
Proof.
  apply ShortString_prefix_of_String; [unfold wf; cbv; lia | cbv; lia].
Defined.

End BytesOpsFacts.

(* ================================================================== *)
(** * Facts about [unmarshalCmd]                                        *)
(* ================================================================== *)

Module MockCoreServerFacts.
Import MockCoreServer.

Section UnmarshalCmd.

Variables RawMessage Target Err : Type.
Variable jsonUnmarshal : RawMessage -> Target -> option Err * Target.

(** The loop from index [i] on sees the parameters from [i] on. *)
Lemma unmarshalFrom_skipn (fields : list Target) :
  forall i Params,
    unmarshalFrom jsonUnmarshal i Params fields
    = unmarshalFrom jsonUnmarshal 0 (skipn i Params) fields.
Proof.
  induction fields as [|field rest IH]; intros i Params; [reflexivity|].
  cbn [MockCoreServer.unmarshalFrom].
  rewrite (IH (S i) Params), (IH 1%nat (skipn i Params)).
  rewrite skipn_skipn. cbn [Nat.add].
  replace (nth_error (skipn i Params) 0) with (nth_error Params i)
    by (rewrite nth_error_skipn; f_equal; lia).
  reflexivity.
Qed.

Lemma unmarshalCmd_cons (raw : RawMessage) (Params : list RawMessage)
      (field : Target) (rest : list Target) :
  unmarshalCmd jsonUnmarshal (raw :: Params) (field :: rest)
  = match jsonUnmarshal raw field with
    | (Some err, field') => Some (Some err, field' :: rest)
    | (None, field') =>
        match unmarshalCmd jsonUnmarshal Params rest with
        | Some (err, rest') => Some (err, field' :: rest')
        | None => None
        end
    end.
Proof.
  unfold MockCoreServer.unmarshalCmd. cbn [MockCoreServer.unmarshalFrom nth_error].
  now rewrite (unmarshalFrom_skipn rest 1 (raw :: Params)).
Qed.

Lemma unmarshalCmd_no_params (field : Target) (rest : list Target) :
  unmarshalCmd jsonUnmarshal [] (field :: rest) = None.
Proof. reflexivity. Qed.

(** X8.  With at least as many parameters as fields, [unmarshalCmd] does
    not panic and keeps every field.  It returns [nil] exactly when every
    field decodes its own parameter without error, and then each field
    holds what [json.Unmarshal] made of the parameter at its position. *)
Theorem unmarshalCmd_enough_params
        (Params : list RawMessage) (fields : list Target)
        (Henough : (List.length fields <= List.length Params)%nat) :
  let decoded := map (fun pf => jsonUnmarshal (fst pf) (snd pf))
                     (combine Params fields) in
  exists err fields',
    unmarshalCmd jsonUnmarshal Params fields = Some (err, fields')
    /\ List.length fields' = List.length fields
    /\ (err = None <-> Forall (fun r => fst r = None) decoded)
    /\ (err = None -> fields' = map snd decoded).
Proof.
  revert Params Henough.
  induction fields as [|field rest IH]; intros Params Henough decoded.
  - exists None, []. subst decoded. rewrite combine_nil.
    repeat split; auto.
  - destruct Params as [|raw Params]; [simpl in Henough; lia|].
    subst decoded. cbn [combine map fst snd].
    rewrite unmarshalCmd_cons.
    destruct (jsonUnmarshal raw field) as [[e|] field'] eqn:Hdec.
    + exists (Some e), (field' :: rest).
      split; [reflexivity|]. split; [reflexivity|]. split.
      * split; [discriminate|]. intros Hall.
        inversion Hall as [|r l Hr]. discriminate.
      * discriminate.
    + destruct (IH Params) as [err [rest' [Hrun [Hlen [Hiff Hval]]]]];
        [simpl in Henough; lia|].
      rewrite Hrun. exists err, (field' :: rest').
      split; [reflexivity|]. split; [simpl; now rewrite Hlen|]. split.
      * rewrite Hiff. split.
        -- intros Hall. now constructor.
        -- intros Hall. now inversion Hall.
      * intros Herr. cbn [snd]. now rewrite (Hval Herr).
Qed.

(** X9.  With fewer parameters than fields, [unmarshalCmd] panics on the
    first field without a parameter, unless a parameter before it fails
    to decode. *)
Theorem unmarshalCmd_too_few_params
        (Params : list RawMessage) (fields : list Target)
        (Hfew : (List.length Params < List.length fields)%nat)
        (Hall : Forall (fun pf => fst (jsonUnmarshal (fst pf) (snd pf)) = None)
                       (combine Params fields)) :
  unmarshalCmd jsonUnmarshal Params fields = None.
Proof.
  revert fields Hfew Hall.
  induction Params as [|raw Params IH]; intros [|field rest] Hfew Hall;
    try (simpl in Hfew; lia).
  - reflexivity.
  - rewrite unmarshalCmd_cons.
    cbn [combine] in Hall. inversion Hall as [|pf l Hhead Htail].
    cbn [fst snd] in Hhead.
    destruct (jsonUnmarshal raw field) as [[e|] field']; [discriminate|].
    rewrite IH; [reflexivity | simpl in Hfew; lia | assumption].
Qed.

(** X10.  [unmarshalCmd] stops at the first parameter that fails to
    decode: it returns that error, the fields before the failing one
    hold their decoded values, the failing field is as [json.Unmarshal]
    left it, and the fields after it are untouched, whether or not there
    are parameters for them. *)
Theorem unmarshalCmd_stops_at_first_error
        (before : list (RawMessage * Target)) (raw : RawMessage)
        (field : Target) (Params : list RawMessage) (rest : list Target)
        (e : Err) (field' : Target)
        (Hbefore : Forall (fun pf => fst (jsonUnmarshal (fst pf) (snd pf)) = None)
                          before)
        (Hfails : jsonUnmarshal raw field = (Some e, field')) :
  unmarshalCmd jsonUnmarshal (map fst before ++ raw :: Params)
               (map snd before ++ field :: rest)
  = Some (Some e,
          map (fun pf => snd (jsonUnmarshal (fst pf) (snd pf))) before
              ++ field' :: rest).
Proof.
  induction before as [|[raw0 field0] before IH]; cbn [map app fst snd].
  - rewrite unmarshalCmd_cons. now rewrite Hfails.
  - rewrite unmarshalCmd_cons.
    inversion Hbefore as [|pf l Hhead Htail]. cbn [fst snd] in Hhead.
    destruct (jsonUnmarshal raw0 field0) as [[e0|] field0']; [discriminate|].
    now rewrite (IH Htail).
Qed.

(** X11.  Parameters beyond the number of fields are never looked at. *)
Theorem unmarshalCmd_ignores_extra_params
        (Params extra : list RawMessage) (fields : list Target)
        (Henough : (List.length fields <= List.length Params)%nat) :
  unmarshalCmd jsonUnmarshal (Params ++ extra) fields
  = unmarshalCmd jsonUnmarshal Params fields.
Proof.
  revert Params Henough.
  induction fields as [|field rest IH]; intros Params Henough; [reflexivity|].
  destruct Params as [|raw Params]; [simpl in Henough; lia|].
  cbn [app]. rewrite !unmarshalCmd_cons.
  rewrite IH by (simpl in Henough; lia). reflexivity.
Qed.

End UnmarshalCmd.

Lemma unmarshalCmd_enough_params_witness :
  unmarshalCmd decodeNat [Some 7; Some 8; Some 9]%nat [0; 0]%nat
  = Some (None, [7; 8]%nat).
Proof.
  destruct (@unmarshalCmd_enough_params _ _ _ decodeNat
              [Some 7; Some 8; Some 9]%nat [0; 0]%nat)
    as [err [fields' [Hrun [_ [Hiff Hval]]]]]; [simpl; lia|].
  rewrite Hrun.
  assert (Herr : err = None) by (apply Hiff; repeat constructor).
  now rewrite (Hval Herr), Herr.
Defined.

Lemma unmarshalCmd_too_few_params_witness :
  unmarshalCmd decodeNat [Some 7]%nat [0; 0]%nat = None.
Proof.
  apply unmarshalCmd_too_few_params; [simpl; lia|].
  repeat constructor.
Defined.

Lemma unmarshalCmd_stops_at_first_error_witness :
  unmarshalCmd decodeNat [Some 7; None]%nat [0; 1; 2]%nat
  = Some (Some "invalid character"%string, [7; 1; 2]%nat).
Proof.
  apply (@unmarshalCmd_stops_at_first_error _ _ _ decodeNat
           [(Some 7, 0)]%nat None 1%nat [] [2]%nat
           "invalid character"%string 1%nat);
    [repeat constructor | reflexivity].
Defined.

Lemma unmarshalCmd_ignores_extra_params_witness :
  unmarshalCmd decodeNat ([Some 7]%nat ++ [None]) [0]%nat
  = unmarshalCmd decodeNat [Some 7]%nat [0]%nat.
Proof.
  apply unmarshalCmd_ignores_extra_params. simpl. lia.
Defined.

End MockCoreServerFacts.

(* ================================================================== *)
(** * More facts about the comparator                                   *)
(* ================================================================== *)

Module ComparatorBounds.
Import Light Vocabulary Measures ComparatorFacts.
Local Open Scope Z_scope.

(** X12.  Whatever the witness answers, one comparator asks it between
    one and five times, first for the target height and afterwards only
    for the target height or for the latest block (height 0); it sleeps
    at most once, and only when the witness answered height-too-high to
    the first request. *)
Theorem comparator_effort (c : Client) (h : SignedHeader) (witness : Provider)
        (witnessIndex : nat) :
  let log := run (compareNewHeaderWithWitness c h witness witnessIndex) in
  (1 <= requests log <= 5)%nat
  /\ hd_error (heightsAsked log) = Some (Height h)
  /\ (forall height, In height (heightsAsked log) ->
                     height = Height h \/ height = 0)
  /\ (sleeps log <= 1)%nat
  /\ (sleeps log = 1%nat -> witness O (Height h) = inr ErrHeightTooHigh).
Proof.
  run_task. each_path;
    (split; [unfold requests; simpl; lia|]);
    (split; [reflexivity|]);
    (split; [simpl; intuition|]);
    (split; [unfold sleeps; simpl; lia|]);
    unfold sleeps; simpl;
    first [discriminate | intros _; assumption | intros _; reflexivity].
Qed.

(** X13.  [getTargetBlockOrLatest] never panics and never returns a nil
    block together with a nil error.  It asks for the latest block and at
    most once more, for the target height.  A block returned with [false]
    is strictly below the target height; a block returned with [true]
    after a single request is at the target height. *)
Theorem getTargetBlockOrLatest_invariant
        (c : Client) (height : Z) (witness : Provider) (log : list event) :
  exists isTargetHeight lightBlock err asked,
    getTargetBlockOrLatest c height witness log
    = (Some (isTargetHeight, lightBlock, err), log ++ map Request asked)
    /\ (asked = [0] \/ asked = [0; height])
    /\ (err = None <-> lightBlock <> None)
    /\ (forall b, isTargetHeight = false -> lightBlock = Some b ->
                  Height (Header b) < height)
    /\ (forall b, isTargetHeight = true -> lightBlock = Some b ->
                  asked = [0] -> Height (Header b) = height).
Proof.
  unfold_task.
  destruct (witness (requests log) 0) as [latest|e] eqn:Hlatest.
  - destruct (Z.eqb_spec (Height (Header latest)) height) as [Heq|Hne].
    + exists true, (Some latest), None, [0].
      repeat split; auto; try discriminate; try congruence.
    + rewrite Z.gtb_ltb.
      destruct (Z.ltb_spec height (Height (Header latest))) as [Hgt|Hle].
      * destruct (witness (requests (log ++ [Request 0])) height)
          as [direct|e] eqn:Hdirect.
        -- exists true, (Some direct), None, [0; height].
           rewrite <- app_assoc.
           repeat split; auto; try discriminate; try congruence.
        -- exists true, None, (Some e), [0; height].
           rewrite <- app_assoc.
           repeat split; auto; try discriminate; try congruence.
      * exists false, (Some latest), None, [0].
        repeat split; auto; try discriminate; try congruence.
        intros b _ [= <-]. lia.
  - exists false, None, (Some e), [0].
    repeat split; auto; try discriminate; try congruence.
Qed.

(** A comparator whose first result is [nil] has made a request that its
    witness answered with a block whose hash is the primary's. *)
Lemma nil_alone_means_equal_hash (c : Client) (h : SignedHeader)
      (witness : Provider) (witnessIndex : nat) :
  hd_error (sent (run (compareNewHeaderWithWitness c h witness witnessIndex)))
  = Some None ->
  exists lightBlock,
    answeredDuring witness
      (run (compareNewHeaderWithWitness c h witness witnessIndex)) lightBlock
    /\ Hash (Header lightBlock) = Hash h.
Proof.
  unfold answeredDuring.
  run_task. each_path; simpl; intros Hhd; try discriminate;
    match goal with
    | Hb : bytesEqual (Hash h) (Hash (Header ?lb)) = true,
      Hw : witness ?n ?height = inl ?lb |- _ =>
        exists lb; split;
        [ exists n, height; split; [reflexivity|exact Hw]
        | symmetry; now apply bytesEqual_eq ]
    end.
Qed.

End ComparatorBounds.

(* ================================================================== *)
(** * More facts about the detector                                     *)
(* ================================================================== *)

Module DetectorRuns.
Import Light Vocabulary Measures DetectorFacts.

(** ** Arrival orders *)

Lemma flat_map_agree {A B : Type} (f g : A -> list B) (l : list A) :
  (forall x, In x l -> f x = g x) -> flat_map f l = flat_map g l.
Proof.
  induction l as [|x l IH]; intros Hfg; simpl; [reflexivity|].
  rewrite (Hfg x) by now left.
  f_equal. apply IH. intros; apply Hfg; now right.
Qed.

(** When no comparator is named twice, what arrives is the first result
    of each comparator named, in the order of the names. *)
Lemma deliver_first_results (arrival : list nat) :
  forall pending,
    NoDup arrival ->
    deliver arrival pending = flat_map (firstResult pending) arrival.
Proof.
  induction arrival as [|i rest IH]; intros pending Hnodup; [reflexivity|].
  inversion Hnodup as [|i' rest' Hnotin Hrest]; subst.
  cbn [deliver flat_map]. unfold firstResult at 1.
  destruct (nth_error pending i) as [[|m q]|] eqn:Hnth;
    try (now rewrite IH).
  rewrite (IH _ Hrest). cbn [app]. f_equal.
  apply flat_map_agree. intros j Hj. unfold firstResult.
  rewrite nth_error_replaceNth_other; [reflexivity|].
  intros ->. contradiction.
Qed.

Lemma launch_nth (c : Client) (h : SignedHeader) (i : nat) (witness : Provider) :
  nth_error (witnesses c) i = Some witness ->
  nth_error (map sent (launch c h)) i
  = Some (sent (run (compareNewHeaderWithWitness c h witness i))).
Proof.
  intros Hw. rewrite nth_error_map. unfold launch.
  now rewrite (@launchFrom_nth_run c h _ 0 i witness Hw).
Qed.

(** The first result of the comparator of a registered witness. *)
Lemma firstResult_registered (c : Client) (h : SignedHeader) (i : nat)
      (witness : Provider) :
  nth_error (witnesses c) i = Some witness ->
  exists m,
    firstResult (map sent (launch c h)) i = [m]
    /\ hd_error (sent (run (compareNewHeaderWithWitness c h witness i)))
       = Some m.
Proof.
  intros Hw. unfold firstResult. rewrite (@launch_nth c h i witness Hw).
  pose proof (ComparatorFacts.comparator_sends_something c h witness i) as Hne.
  destruct (sent (run (compareNewHeaderWithWitness c h witness i)))
    as [|m q]; [congruence|].
  now exists m.
Qed.

Lemma length_flat_map_singletons {A B : Type} (f : A -> list B) (l : list A) :
  (forall x, In x l -> exists y, f x = [y]) ->
  List.length (flat_map f l) = List.length l.
Proof.
  induction l as [|x l IH]; intros Hone; simpl; [reflexivity|].
  destruct (Hone x) as [y ->]; [now left|].
  simpl. f_equal. apply IH. intros; apply Hone; now right.
Qed.

(** When the first results of all witnesses arrive, in any order, the
    fan-in loop receives exactly these. *)
Lemma received_first_results (c : Client) (h : SignedHeader)
      (arrival : list nat) :
  Permutation arrival (seq 0 (List.length (witnesses c))) ->
  received c h arrival = flat_map (firstResult (map sent (launch c h))) arrival
  /\ List.length (deliver arrival (map sent (launch c h)))
     = List.length (witnesses c).
Proof.
  intros Hperm.
  assert (Hnodup : NoDup arrival).
  { apply (Permutation_NoDup (Permutation_sym Hperm)), seq_NoDup. }
  assert (Hlen : List.length (flat_map (firstResult (map sent (launch c h)))
                                       arrival)
                 = List.length (witnesses c)).
  { rewrite length_flat_map_singletons.
    - rewrite (Permutation_length Hperm). apply length_seq.
    - intros i Hi. apply (Permutation_in _ Hperm) in Hi.
      apply in_seq in Hi.
      destruct (nth_error (witnesses c) i) as [w|] eqn:Hw.
      + destruct (@firstResult_registered c h i w Hw) as [m [Hm _]]. now exists m.
      + apply nth_error_None in Hw. lia. }
  unfold received. rewrite (deliver_first_results _ Hnodup).
  split; [|exact Hlen].
  apply firstn_all2. lia.
Qed.

Lemma length_remove_NoDup (x : nat) (l : list nat) :
  NoDup l -> (List.length l <= S (List.length (remove Nat.eq_dec x l)))%nat.
Proof.
  induction l as [|y l IH]; intros Hnodup; simpl; [lia|].
  inversion Hnodup as [|y' l' Hnotin Hrest]; subst.
  destruct (Nat.eq_dec x y) as [->|Hxy].
  - rewrite notin_remove by assumption. lia.
  - simpl. specialize (IH Hrest). lia.
Qed.

(** Every comparator that is named in the arrival order and has a result
    pending gets at least one result through. *)
Lemma deliver_serves (arrival : list nat) :
  forall pending need,
    NoDup need ->
    (forall j, In j need ->
               In j arrival /\ exists m q, nth_error pending j = Some (m :: q)) ->
    (List.length need <= List.length (deliver arrival pending))%nat.
Proof.
  induction arrival as [|i rest IH]; intros pending need Hnodup Hneed.
  - destruct need as [|j need]; [simpl; lia|].
    destruct (Hneed j) as [[] _]. now left.
  - cbn [deliver].
    destruct (nth_error pending i) as [[|m q]|] eqn:Hnth.
    + apply IH; [assumption|]. intros j Hj.
      destruct (Hneed j Hj) as [[<-|Hin] [m [q Hq]]]; [congruence|].
      split; [assumption|now exists m, q].
    + pose proof (length_remove_NoDup i Hnodup) as Hrem.
      assert (Hserved :
                (List.length (remove Nat.eq_dec i need)
                 <= List.length (deliver rest (replaceNth i q pending)))%nat).
      { apply IH.
        - clear -Hnodup. induction need as [|y need IHn]; simpl; [constructor|].
          inversion Hnodup as [|y' l' Hnotin Hrest]; subst.
          destruct (Nat.eq_dec i y); [now apply IHn|].
          constructor; [|now apply IHn].
          intros Hin. apply in_remove in Hin. tauto.
        - intros j Hj. apply in_remove in Hj as [Hj Hji].
          destruct (Hneed j Hj) as [[Heq|Hin] [m' [q' Hq']]]; [congruence|].
          split; [assumption|]. exists m', q'.
          rewrite nth_error_replaceNth_other by congruence. assumption. }
      simpl. lia.
    + apply IH; [assumption|]. intros j Hj.
      destruct (Hneed j Hj) as [[<-|Hin] [m [q Hq]]]; [congruence|].
      split; [assumption|now exists m, q].
Qed.

Lemma pending_nonempty (c : Client) (h : SignedHeader) (j : nat) :
  (j < List.length (witnesses c))%nat ->
  exists m q, nth_error (map sent (launch c h)) j = Some (m :: q).
Proof.
  intros Hj.
  destruct (nth_error (witnesses c) j) as [w|] eqn:Hw;
    [|apply nth_error_None in Hw; lia].
  rewrite (@DetectorRuns.launch_nth c h j w Hw).
  pose proof (ComparatorFacts.comparator_sends_something c h w j) as Hne.
  destruct (sent (run (compareNewHeaderWithWitness c h w j))) as [|m q];
    [congruence|].
  now exists m, q.
Qed.

(** What a decision can be. *)
Lemma decide_returns
      (removeWitnesses : list nat -> list Provider -> option error * list Provider)
      (c : Client) (done : list action) (headerMatched : bool)
      (witnessesToRemove : list nat) :
  exists o,
    decide removeWitnesses c done headerMatched witnessesToRemove = Returned o
    /\ (returned o = None -> headerMatched = true)
    /\ after o
       = setWitnesses c (snd (removeWitnesses witnessesToRemove (witnesses c))).
Proof.
  unfold decide.
  destruct (removeWitnesses witnessesToRemove (witnesses c)) as [[e|] ws'];
    [|destruct headerMatched];
    eexists; (split; [reflexivity|]); simpl; split;
      try reflexivity; try discriminate.
Qed.

Section Runs.

Variable removeWitnesses :
  list nat -> list Provider -> option error * list Provider.

(** X14.  [detectDivergence] returns, whatever the witnesses answer and
    whatever the registry does on removal: with a trace of at least two
    blocks and a non-empty registry, as soon as the arrival order names
    every witness at least once, the call neither waits for ever on the
    channel nor panics, and it leaves the tolerances of the client as
    they were. *)
Theorem detectDivergence_returns
        (c : Client) (front : list LightBlock) (lastBlock : LightBlock)
        (now : Z) (arrival : list nat)
        (Hfront : front <> [])
        (Hws : witnesses c <> [])
        (Hall : incl (seq 0 (List.length (witnesses c))) arrival) :
  exists o,
    detectDivergence removeWitnesses c (front ++ [lastBlock]) now arrival
    = Returned o
    /\ maxClockDrift (after o) = maxClockDrift c
    /\ maxBlockLag (after o) = maxBlockLag c.
Proof.
  assert (Harrive :
            (List.length (witnesses c)
             <= List.length (deliver arrival
                               (map sent (launch c (Header lastBlock)))))%nat).
  { apply Nat.le_trans
      with (List.length (seq 0 (List.length (witnesses c))));
      [rewrite length_seq; lia|].
    apply deliver_serves; [apply seq_NoDup|].
    intros j Hj. split; [now apply Hall|].
    apply in_seq in Hj. apply pending_nonempty. lia. }
  rewrite (detectDivergence_reaches_decision removeWitnesses c lastBlock
             now arrival Hfront Hws Harrive).
  match goal with
  | |- context [decide _ _ ?done ?m ?q] =>
      destruct (decide_returns removeWitnesses c done m q)
        as [o [Hret [_ Hafter]]]
  end.
  exists o. split; [exact Hret|]. now rewrite Hafter.
Qed.

(** X15.  When the result that arrives from each witness is its first
    one, in any order, a [nil] return is backed by a witness: the
    comparator of some registered witness has made a request that the
    witness answered with a block whose hash is the hash of the last
    header of the trace. *)
Theorem detectDivergence_nil_has_matching_witness
        (c : Client) (front : list LightBlock) (lastBlock : LightBlock)
        (now : Z) (arrival : list nat) (o : outcome)
        (Hfront : front <> [])
        (Hws : witnesses c <> [])
        (Hperm : Permutation arrival (seq 0 (List.length (witnesses c))))
        (Hrun : detectDivergence removeWitnesses c (front ++ [lastBlock])
                                 now arrival = Returned o)
        (Hnil : returned o = None) :
  exists i witness lightBlock,
    nth_error (witnesses c) i = Some witness
    /\ answeredDuring witness
         (run (compareNewHeaderWithWitness c (Header lastBlock) witness i))
         lightBlock
    /\ Hash (Header lightBlock) = Hash (Header lastBlock).
Proof.
  destruct (received_first_results c (Header lastBlock) Hperm)
    as [Hreceived Hlen].
  rewrite (detectDivergence_reaches_decision removeWitnesses c lastBlock
             now arrival Hfront Hws) in Hrun by lia.
  match type of Hrun with
  | decide _ _ ?done ?m ?q = _ =>
      destruct (decide_returns removeWitnesses c done m q)
        as [o' [Hret [Hmatched _]]]
  end.
  rewrite Hret in Hrun. injection Hrun as ->.
  specialize (Hmatched Hnil).
  apply existsb_exists in Hmatched as [m [Hin Hm]].
  destruct m as [e|]; [discriminate|].
  rewrite Hreceived in Hin.
  apply in_flat_map in Hin as [i [Hi Hfirst]].
  apply (Permutation_in _ Hperm), in_seq in Hi.
  destruct (nth_error (witnesses c) i) as [w|] eqn:Hw;
    [|apply nth_error_None in Hw; lia].
  destruct (@firstResult_registered c (Header lastBlock) i w Hw)
    as [m [Hm' Hhd]].
  rewrite Hm' in Hfirst. destruct Hfirst as [->|[]].
  destruct (ComparatorBounds.nil_alone_means_equal_hash _ _ _ _ Hhd)
    as [lb [Hans Hhash]].
  now exists i, w, lb.
Qed.

End Runs.

Lemma detectDivergence_returns_witness :
  exists o,
    detectDivergence compactWitnesses
      (Examples.client [Examples.liar; Examples.lagging])
      Examples.trace 0%Z [1%nat; 0%nat; 0%nat; 1%nat]
    = Returned o.
Proof.
  destruct (@detectDivergence_returns compactWitnesses
              (Examples.client [Examples.liar; Examples.lagging])
              [Examples.anchor] Examples.target 0%Z
              [1%nat; 0%nat; 0%nat; 1%nat])
    as [o [Hret _]].
  - discriminate.
  - discriminate.
  - intros j Hj. simpl in Hj. simpl. intuition.
  - now exists o.
Defined.

Lemma detectDivergence_nil_has_matching_witness_witness :
  exists i witness lightBlock,
    nth_error [Examples.silent; Examples.honest] i = Some witness
    /\ Measures.answeredDuring witness
         (run (compareNewHeaderWithWitness
                 (Examples.client [Examples.silent; Examples.honest])
                 Examples.h5 witness i))
         lightBlock
    /\ Hash (Header lightBlock) = Hash Examples.h5.
Proof.
  apply (@detectDivergence_nil_has_matching_witness compactWitnesses
           (Examples.client [Examples.silent; Examples.honest])
           [Examples.anchor] Examples.target 0%Z [1%nat; 0%nat]
           (mkOutcome None
              (Examples.client [Examples.silent; Examples.honest])
              [Lock;
               Go 0 [Request 5; Send (Some (ProviderError ErrNoResponse))];
               Go 1 [Request 5; Send None];
               Receive None;
               Receive (Some (ProviderError ErrNoResponse));
               RemoveWitnesses []; Unlock])).
  - discriminate.
  - discriminate.
  - simpl. apply perm_swap.
  - reflexivity.
  - reflexivity.
Defined.

(** ** One witness *)

(** With one comparator, what arrives is the beginning of what it sent. *)
Lemma deliver_single (arrival : list nat) :
  forall q, exists rest, q = deliver arrival [q] ++ rest.
Proof.
  induction arrival as [|i arrival IH]; intros q.
  - now exists q.
  - destruct i as [|i]; cbn [deliver nth_error].
    + destruct q as [|m q].
      * apply IH.
      * destruct (IH q) as [rest Hrest]. exists rest.
        cbn [replaceNth app]. now rewrite <- Hrest.
    + replace (nth_error (@nil (list (option error))) i) with
        (@None (list (option error))) by now destruct i.
      apply IH.
Qed.

Lemma returned_was_served
      (removeWitnesses : list nat -> list Provider -> option error * list Provider)
      (c : Client) (front : list LightBlock) (lastBlock : LightBlock)
      (now : Z) (arrival : list nat) (o : outcome) :
  front <> [] ->
  witnesses c <> [] ->
  detectDivergence removeWitnesses c (front ++ [lastBlock]) now arrival
  = Returned o ->
  (List.length (witnesses c)
   <= List.length (deliver arrival (map sent (launch c (Header lastBlock)))))%nat.
Proof.
  intros Hfront Hws. unfold detectDivergence.
  destruct (Nat.ltb_spec (List.length (front ++ [lastBlock])) 2) as [Hlt|_].
  { rewrite length_app in Hlt. destruct front; [congruence|]. simpl in Hlt. lia. }
  rewrite trace_last_block.
  destruct (Nat.eqb_spec (List.length (witnesses c)) 0) as [Hz|_].
  { destruct (witnesses c); [congruence|discriminate]. }
  rewrite launch_no_panic.
  destruct (Nat.ltb_spec
              (List.length (deliver arrival
                              (map sent (launch c (Header lastBlock)))))
              (List.length (witnesses c))) as [Hlt|Hge];
    [discriminate|auto].
Qed.

Section OneWitness.

Variable removeWitnesses :
  list nat -> list Provider -> option error * list Provider.

(** X16.  With a single witness registered, whatever arrives and in
    whatever order, [detectDivergence] returns [nil] only if its
    comparator has made a request that the witness answered with a block
    whose hash is the hash of the last header of the trace. *)
Theorem single_witness_nil_means_match
        (c : Client) (witness : Provider)
        (front : list LightBlock) (lastBlock : LightBlock)
        (now : Z) (arrival : list nat) (o : outcome)
        (Hfront : front <> [])
        (Hone : witnesses c = [witness])
        (Hrun : detectDivergence removeWitnesses c (front ++ [lastBlock])
                                 now arrival = Returned o)
        (Hnil : returned o = None) :
  exists lightBlock,
    answeredDuring witness
      (run (compareNewHeaderWithWitness c (Header lastBlock) witness 0))
      lightBlock
    /\ Hash (Header lightBlock) = Hash (Header lastBlock).
Proof.
  assert (Hws : witnesses c <> []) by (rewrite Hone; discriminate).
  pose proof (returned_was_served removeWitnesses c lastBlock now arrival
                Hfront Hws Hrun) as Harrive.
  rewrite (detectDivergence_reaches_decision removeWitnesses c lastBlock
             now arrival Hfront Hws Harrive) in Hrun.
  match type of Hrun with
  | decide _ _ ?done ?m ?q = _ =>
      destruct (decide_returns removeWitnesses c done m q)
        as [o' [Hret [Hmatched _]]]
  end.
  rewrite Hret in Hrun. injection Hrun as ->.
  specialize (Hmatched Hnil).
  apply existsb_exists in Hmatched as [m [Hin Hm]].
  destruct m as [e|]; [discriminate|].
  unfold received, launch in Hin, Harrive. rewrite Hone in Hin, Harrive.
  cbn [launchFrom map List.length] in Hin, Harrive.
  set (q := sent (run (compareNewHeaderWithWitness c (Header lastBlock)
                         witness 0))) in *.
  destruct (deliver_single arrival q) as [rest Hq].
  destruct (deliver arrival [q]) as [|m delivered];
    [simpl in Harrive; lia|].
  cbn [firstn] in Hin. destruct Hin as [->|[]].
  apply (ComparatorBounds.nil_alone_means_equal_hash c (Header lastBlock)
           witness 0).
  fold q. now rewrite Hq.
Qed.

End OneWitness.

Lemma single_witness_nil_means_match_witness :
  exists lightBlock,
    Measures.answeredDuring Examples.advanced
      (run (compareNewHeaderWithWitness (Examples.client [Examples.advanced])
              Examples.h5 Examples.advanced 0))
      lightBlock
    /\ Hash (Header lightBlock) = Hash Examples.h5.
Proof.
  apply (@single_witness_nil_means_match compactWitnesses
           (Examples.client [Examples.advanced]) Examples.advanced
           [Examples.anchor] Examples.target 0%Z [0%nat]
           (mkOutcome None (Examples.client [Examples.advanced])
              [Lock;
               Go 0 [Request 5; Request 0; Request 5; Send None];
               Receive None; RemoveWitnesses []; Unlock])).
  - discriminate.
  - reflexivity.
  - reflexivity.
  - reflexivity.
Defined.

(** ** The removal queue *)

(** The results of one comparator queue its own witness, once, or
    nothing. *)
Lemma comparator_queues_itself_once (c : Client) (h : SignedHeader)
      (witness : Provider) (i : nat) :
  let queued :=
    flat_map queuedBy (sent (run (compareNewHeaderWithWitness c h witness i))) in
  queued = [] \/ queued = [i].
Proof.
  destruct (ComparatorFacts.comparator_sends c h witness i)
    as [_ [[m [-> Hm]]|[lb [-> _]]]]; cbn [flat_map queuedBy app].
  - destruct m as [[e|b j|[] j| | |text]|]; simpl in Hm; subst; auto.
  - now right.
Qed.

Lemma launchFrom_queues (c : Client) (h : SignedHeader) (ws : list Provider) :
  forall k,
    let queued :=
      flat_map queuedBy (List.concat (map sent (launchFrom c h k ws))) in
    NoDup queued
    /\ forall j, In j queued -> (k <= j < k + List.length ws)%nat.
Proof.
  induction ws as [|w ws IH]; intros k; cbn zeta.
  - split; [constructor|contradiction].
  - cbn [launchFrom map List.concat]. rewrite flat_map_app.
    destruct (IH (S k)) as [Hnodup Hrange].
    destruct (comparator_queues_itself_once c h w k) as [-> | ->];
      cbn [app].
    + split; [assumption|].
      intros j Hj. specialize (Hrange j Hj). simpl. lia.
    + split.
      * constructor; [|assumption].
        intros Hin. specialize (Hrange k Hin). lia.
      * intros j [<-|Hj]; [simpl; lia|].
        specialize (Hrange j Hj). simpl. lia.
Qed.

(** What the received results queue, taken together, names no witness
    twice and only positions of the registry. *)
Lemma received_queue_distinct
      (c : Client) (h : SignedHeader) (arrival : list nat) :
  let queue := flat_map queuedBy (received c h arrival) in
  NoDup queue
  /\ (forall i, In i queue -> (i < List.length (witnesses c))%nat)
  /\ (List.length queue <= List.length (witnesses c))%nat.
Proof.
  cbn zeta.
  set (pending := map sent (launch c h)).
  destruct (launchFrom_queues c h (witnesses c) 0) as [Hnodup Hrange].
  fold (launch c h) in Hnodup, Hrange. fold pending in Hnodup, Hrange.
  destruct (deliver_pending arrival pending) as [left Hleft].
  assert (Hsplit : Permutation
                     (flat_map queuedBy (received c h arrival)
                      ++ flat_map queuedBy
                           (skipn (List.length (witnesses c))
                                  (deliver arrival pending) ++ left))
                     (flat_map queuedBy (List.concat pending))).
  { rewrite <- flat_map_app. apply Permutation_flat_map.
    unfold received. fold pending.
    rewrite app_assoc, firstn_skipn. exact Hleft. }
  assert (Hq : NoDup (flat_map queuedBy (received c h arrival))).
  { apply NoDup_app_remove_r with (l' :=
      flat_map queuedBy (skipn (List.length (witnesses c))
                               (deliver arrival pending) ++ left)).
    apply (Permutation_NoDup (Permutation_sym Hsplit) Hnodup). }
  assert (Hin : forall i, In i (flat_map queuedBy (received c h arrival)) ->
                          (i < List.length (witnesses c))%nat).
  { intros i Hi.
    assert (Hi' : In i (flat_map queuedBy (List.concat pending))).
    { apply (Permutation_in _ Hsplit). apply in_or_app. now left. }
    specialize (Hrange i Hi'). lia. }
  split; [exact Hq|]. split; [exact Hin|].
  apply Nat.le_trans with (List.length (seq 0 (List.length (witnesses c))));
    [|rewrite length_seq; lia].
  apply NoDup_incl_length; [exact Hq|].
  intros i Hi. apply in_seq. specialize (Hin i Hi). lia.
Qed.

Lemma goActions_In (a : action) (logs : list (list event)) :
  forall k, In a (goActions k logs) -> exists i log, a = Go i log.
Proof.
  induction logs as [|log logs IH]; intros k; simpl; [contradiction|].
  intros [<-|Hin]; [now exists k, log|]. now apply (IH (S k)).
Qed.

(** The batch of a returned call is the queue that the fan-in loop built
    from the results received. *)
Lemma returned_batch_is_fanIn_queue
      (removeWitnesses : list nat -> list Provider -> option error * list Provider)
      (c : Client) (primaryTrace : list LightBlock) (now : Z)
      (arrival : list nat) (o : outcome) (indexes : list nat) :
  detectDivergence removeWitnesses c primaryTrace now arrival = Returned o ->
  In (RemoveWitnesses indexes) (actions o) ->
  exists lastBlock headerMatched,
    nth_error primaryTrace (List.length primaryTrace - 1) = Some lastBlock
    /\ fanIn (witnesses c) (false, [])
             (received c (Header lastBlock) arrival)
       = Some (headerMatched, indexes).
Proof.
  unfold detectDivergence.
  destruct (List.length primaryTrace <? 2)%nat.
  { intros [= <-]. contradiction. }
  destruct (nth_error primaryTrace (List.length primaryTrace - 1))
    as [lastBlock|]; [|discriminate].
  destruct (List.length (witnesses c) =? 0)%nat.
  { intros [= <-]. simpl. intros [|[|[]]]; discriminate. }
  rewrite launch_no_panic.
  destruct (List.length
              (deliver arrival (map sent (launch c (Header lastBlock))))
            <? List.length (witnesses c))%nat; [discriminate|].
  destruct (fanIn (witnesses c) (false, [])
                  (received c (Header lastBlock) arrival))
    as [[headerMatched queue]|] eqn:Hfan; [|discriminate].
  intros Hrun Hin.
  exists lastBlock, headerMatched. split; [reflexivity|].
  enough (indexes = queue) by congruence.
  unfold decide in Hrun.
  assert (Hact : In (RemoveWitnesses indexes)
                    (((Lock :: goActions 0 (launch c (Header lastBlock))
                            ++ map Receive
                                 (received c (Header lastBlock) arrival))
                        ++ [RemoveWitnesses queue]) ++ [Unlock])).
  { destruct (removeWitnesses queue (witnesses c)) as [[e|] ws'];
      [|destruct headerMatched]; injection Hrun as <-; exact Hin. }
  clear Hrun Hin.
  apply in_app_or in Hact as [Hact|[|[]]]; [|discriminate].
  apply in_app_or in Hact as [Hact|[Heq|[]]]; [|congruence].
  destruct Hact as [|Hact]; [discriminate|].
  apply in_app_or in Hact as [Hgo|Hrecv].
  - apply goActions_In in Hgo as [i [log Hgo]]. discriminate.
  - apply in_map_iff in Hrecv as [m [Hm _]]. discriminate.
Qed.

Section Batch.

Variable removeWitnesses :
  list nat -> list Provider -> option error * list Provider.

(** X17.  Whenever [detectDivergence] returns after calling
    [removeWitnesses], the batch it passed, built by the fan-in loop,
    names no witness twice and names only positions of the registry; so
    it is never longer than the registry, whatever the witnesses answer
    and in whatever order the results arrive. *)
Theorem removal_batch_distinct_positions
        (c : Client) (primaryTrace : list LightBlock) (now : Z)
        (arrival : list nat) (o : outcome) (indexes : list nat)
        (Hrun : detectDivergence removeWitnesses c primaryTrace now arrival
                = Returned o)
        (Hbatch : In (RemoveWitnesses indexes) (actions o)) :
  NoDup indexes
  /\ (forall i, In i indexes -> (i < List.length (witnesses c))%nat)
  /\ (List.length indexes <= List.length (witnesses c))%nat.
Proof.
  destruct (returned_batch_is_fanIn_queue _ _ _ _ _ _ Hrun Hbatch)
    as [lastBlock [headerMatched [_ Hfan]]].
  rewrite (fanIn_registered (witnesses c)
             (received c (Header lastBlock) arrival) false []
             (received_registered c (Header lastBlock) arrival)) in Hfan.
  injection Hfan as _ <-. cbn [app].
  apply received_queue_distinct.
Qed.

End Batch.

Lemma removal_batch_distinct_positions_witness :
  NoDup [0%nat]
  /\ (forall i, In i [0%nat] -> (i < 2)%nat)
  /\ (List.length [0%nat] <= 2)%nat.
Proof.
  apply (@removal_batch_distinct_positions compactWitnesses
           (Examples.client [Examples.liar; Examples.honest])
           Examples.trace 0%Z [0%nat; 1%nat]
           (mkOutcome None (Examples.client [Examples.honest])
              [Lock;
               Go 0 [Request 5;
                     Send (Some (errConflictingHeaders Examples.forged 0));
                     Send None];
               Go 1 [Request 5; Send None];
               Receive (Some (errConflictingHeaders Examples.forged 0));
               Receive None;
               RemoveWitnesses [0%nat]; Unlock])
           [0%nat]).
  - reflexivity.
  - simpl. intuition.
Defined.

(** ** Order of arrival *)

Lemma existsb_Permutation {A : Type} (f : A -> bool) (l l' : list A) :
  Permutation l l' -> existsb f l = existsb f l'.
Proof.
  intros Hperm.
  destruct (existsb f l) eqn:Hl; symmetry.
  - apply existsb_exists in Hl as [x [Hx Hfx]].
    apply existsb_exists. exists x. split; [|assumption].
    now apply (Permutation_in _ Hperm).
  - destruct (existsb f l') eqn:Hl'; [|reflexivity].
    apply existsb_exists in Hl' as [x [Hx Hfx]].
    assert (Hl2 : existsb f l = true).
    { apply existsb_exists. exists x. split; [|assumption].
      now apply (Permutation_in _ (Permutation_sym Hperm)). }
    congruence.
Qed.

(** X18.  When every comparator sends exactly one result, the order of
    arrival does not matter to the fan-in loop: run over the results of
    two served arrival orders, the loop ends with the same
    [headerMatched] and with queues that hold the same witnesses, up to
    order. *)
Theorem one_result_each_order_irrelevant
        (c : Client) (h : SignedHeader) (arrival1 arrival2 : list nat)
        (Hone : forall i witness,
            nth_error (witnesses c) i = Some witness ->
            List.length
              (sent (run (compareNewHeaderWithWitness c h witness i)))
            = 1%nat)
        (Hserved1 :
           (List.length (witnesses c)
            <= List.length (deliver arrival1 (map sent (launch c h))))%nat)
        (Hserved2 :
           (List.length (witnesses c)
            <= List.length (deliver arrival2 (map sent (launch c h))))%nat) :
  exists headerMatched queue1 queue2,
    fanIn (witnesses c) (false, []) (received c h arrival1)
    = Some (headerMatched, queue1)
    /\ fanIn (witnesses c) (false, []) (received c h arrival2)
       = Some (headerMatched, queue2)
    /\ Permutation queue1 queue2.
Proof.
  set (pending := map sent (launch c h)) in *.
  assert (Hlen : List.length pending = List.length (witnesses c)).
  { unfold pending, launch. now rewrite length_map, launchFrom_length. }
  assert (Hones : forall q, In q pending -> List.length q = 1%nat).
  { intros q Hq. apply In_nth_error in Hq as [j Hj].
    unfold pending in Hj. rewrite nth_error_map in Hj.
    destruct (nth_error (launch c h) j) as [log|] eqn:Hlog; [|discriminate].
    injection Hj as <-.
    destruct (launchFrom_nth _ _ _ _ _ Hlog) as [w [Hw ->]].
    now apply Hone. }
  assert (Hall : forall arrival,
             (List.length (witnesses c)
              <= List.length (deliver arrival pending))%nat ->
             Permutation (received c h arrival) (List.concat pending)).
  { intros arrival Hserved.
    destruct (deliver_everything arrival pending Hones) as [Hperm Hl];
      [lia|].
    unfold received. fold pending.
    rewrite firstn_all2 by lia. exact Hperm. }
  assert (Hperm : Permutation (received c h arrival1) (received c h arrival2)).
  { rewrite (Hall arrival1 Hserved1). symmetry. apply (Hall arrival2 Hserved2). }
  exists (existsb isMatch (received c h arrival1)),
    (flat_map queuedBy (received c h arrival1)),
    (flat_map queuedBy (received c h arrival2)).
  split; [|split].
  - apply (fanIn_registered (witnesses c) (received c h arrival1) false []
             (received_registered c h arrival1)).
  - rewrite (existsb_Permutation isMatch Hperm).
    apply (fanIn_registered (witnesses c) (received c h arrival2) false []
             (received_registered c h arrival2)).
  - now apply Permutation_flat_map.
Qed.

Lemma one_result_each_order_irrelevant_witness :
  let c := Examples.client [Examples.skewed; Examples.honest; Examples.lagging] in
  fanIn (witnesses c) (false, []) (received c Examples.h5 [0%nat; 1%nat; 2%nat])
  = Some (true, [0%nat])
  /\ fanIn (witnesses c) (false, [])
           (received c Examples.h5 [2%nat; 1%nat; 0%nat])
     = Some (true, [0%nat]).
Proof.
  intros c.
  destruct (@one_result_each_order_irrelevant c Examples.h5
              [0%nat; 1%nat; 2%nat] [2%nat; 1%nat; 0%nat])
    as [headerMatched [queue1 [queue2 [Hrun1 [Hrun2 _]]]]].
  - intros [|[|[|i]]] w Hw; try (injection Hw as <-; reflexivity).
    destruct i; discriminate.
  - simpl. lia.
  - simpl. lia.
  - split; reflexivity.
Defined.

End DetectorRuns.
